(** * Selection corner styles of [selectionsGpu.ts]

    A shallow embedding of
    [src/vs/editor/browser/viewParts/selectionsGpu/selectionsGpu.ts]:
    the gap check, the corner-style classifier with its previous-frame
    lookup, the per-selection entry point, and the render preparation.

    Conventions of the embedding.
    - A JavaScript [number] holding a pixel offset or a width is an IEEE
      754 binary64 value, a [float] of [PrimFloat]: [+], [-], [/] round to
      nearest, ties to even; [<] is false as soon as one side is NaN; the
      infinities and the two zeros are there.  Statements about offsets
      are therefore statements about the numbers the program computes;
      [exactValue] gives the real number a finite double stands for, and
      the comparisons of finite doubles are shown to be the comparisons
      of these real numbers.
      Line and column numbers are [Z]; the arguments of
      [rectangleRenderer.register], products of such numbers by ten and
      small constants, are kept exact as fractions.
    - [T | null] is [option T]; an array is a [list], read with [!!].
    - A property read on [undefined] or [null] raises [TypeError]; the
      functions that can do so return a [Completion].
    - The classifier writes into the range objects of the array it is
      given.  The array is threaded through the loop as an explicit state,
      so every read of iteration [i] sees the writes of the iterations
      before it.  The previous frame is another array with range objects
      of its own, since every call of the entry point builds its lines
      afresh with [toStyled]; the writes do not reach it. *)

From Stdlib Require Import Floats.
From Stdlib Require Import ZArith QArith Qabs Qpower Lqa Lia List Bool String.
From stdpp Require Import base option list.

Local Open Scope Z_scope.

(** Decimal literals stand for the nearest double, as they do in
    JavaScript. *)
#[local] Set Warnings "-inexact-float".

(** ** Completions: a value, or a thrown error *)

Inductive JsError : Type := TypeError.

Inductive Completion (A : Type) : Type :=
| Normal (a : A)
| Throw (e : JsError).
Arguments Normal {A} a.
Arguments Throw {A} e.

#[global] Instance Completion_ret : MRet Completion := fun A a => Normal a.
#[global] Instance Completion_bind : MBind Completion :=
  fun A B f m => match m with Normal a => f a | Throw e => Throw e end.

(** [o.p] where [o] may be [undefined] or [null]. *)
Definition deref {A : Type} (o : option A) : Completion A :=
  match o with
  | Some a => Normal a
  | None => Throw TypeError
  end.

(** The call returns instead of throwing. *)
Definition completes {A : Type} (c : Completion A) : Prop :=
  exists a, c = Normal a.

#[global] Instance completes_dec {A : Type} (c : Completion A) : Decision (completes c).
Proof.
  destruct c as [a|e]; [left; exists a; reflexivity | right; intros [a H]; discriminate].
Defined.

(** ** Numbers *)

(** [function abs(n) { return n < 0 ? -n : n; }] (lines 424-426).  On NaN
    the test is false and NaN is returned; [-0] is returned as it is. *)
Definition abs (n : float) : float := if (n <? 0)%float then (- n)%float else n.

(** ** Data model *)

Inductive CornerStyle : Type := EXTERN | INTERN | FLAT.

#[global] Instance CornerStyle_eq_dec : EqDecision CornerStyle.
Proof. solve_decision. Defined.

Module IVisibleRangeEndPointStyle.
Record t : Type := mk { top : CornerStyle; bottom : CornerStyle }.
End IVisibleRangeEndPointStyle.

(** [Range] of [common/core/range.js], as far as this file reads it. *)
Module Range.
Record t : Type := mk {
  startLineNumber : Z;
  startColumn : Z;
  endLineNumber : Z;
  endColumn : Z
}.
End Range.

(** [HorizontalRange] and [LineVisibleRanges] of [view/renderingContext.js],
    as far as this file reads them. *)
Module HorizontalRange.
Record t : Type := mk { left : float; width : float }.
End HorizontalRange.

Module LineVisibleRanges.
Record t : Type := mk { lineNumber : Z; ranges : list HorizontalRange.t }.
End LineVisibleRanges.

Module HorizontalRangeWithStyle.
Record t : Type := mk {
  left : float;
  width : float;
  startStyle : option IVisibleRangeEndPointStyle.t;
  endStyle : option IVisibleRangeEndPointStyle.t
}.

(** The constructor. *)
Definition new (other : HorizontalRange.t) : t :=
  {| left := HorizontalRange.left other;
     width := HorizontalRange.width other;
     startStyle := None;
     endStyle := None |}.
End HorizontalRangeWithStyle.

Module LineVisibleRangesWithStyle.
Record t : Type := mk {
  lineNumber : Z;
  ranges : list HorizontalRangeWithStyle.t
}.
End LineVisibleRangesWithStyle.

Abbreviation EdgeStyle := IVisibleRangeEndPointStyle.t.
Abbreviation StyledRange := HorizontalRangeWithStyle.t.
Abbreviation StyledLine := LineVisibleRangesWithStyle.t.

Definition toStyledRange (item : HorizontalRange.t) : StyledRange :=
  HorizontalRangeWithStyle.new item.

Definition toStyled (item : LineVisibleRanges.t) : StyledLine :=
  {| LineVisibleRangesWithStyle.lineNumber := LineVisibleRanges.lineNumber item;
     LineVisibleRangesWithStyle.ranges := toStyledRange <$> LineVisibleRanges.ranges item |}.

(** ** The gap check (lines 106-118) *)

Fixpoint _visibleRangesHaveGaps (linesVisibleRanges : list StyledLine) : bool :=
  match linesVisibleRanges with
  | [] => false
  | lineVisibleRanges :: rest =>
      if (1 <? length (LineVisibleRangesWithStyle.ranges lineVisibleRanges))%nat
      then true
      else _visibleRangesHaveGaps rest
  end.

(** ** The previous-frame lookup (lines 122-151) *)

(** The scan [for (...; !found && ...) if (frame[i].lineNumber === n)
    found = frame[i].ranges[0]], over the lines in the order visited.  An
    entry whose line number matches but whose [ranges[0]] is [undefined]
    leaves [found] falsy, so the scan goes on. *)
Fixpoint scanFrame (visited : list StyledLine) (n : Z) : option StyledRange :=
  match visited with
  | [] => None
  | l :: rest =>
      if LineVisibleRangesWithStyle.lineNumber l =? n then
        match LineVisibleRangesWithStyle.ranges l !! 0%nat with
        | Some r => Some r
        | None => scanFrame rest n
        end
      else scanFrame rest n
  end.

(** [if (found && !found.startStyle) found = null] *)
Definition dropUnstyled (found : option StyledRange) : option StyledRange :=
  match found with
  | Some r =>
      match HorizontalRangeWithStyle.startStyle r with
      | Some _ => Some r
      | None => None
      end
  | None => None
  end.

(** The pair [(previousFrameTop, previousFrameBottom)] after line 151. *)
Definition previousFrameEdges (viewport : Range.t)
    (linesVisibleRanges : list StyledLine)
    (previousFrame : option (list StyledLine))
  : option StyledRange * option StyledRange :=
  match previousFrame with
  | Some previousFrame =>
      if (0 <? length previousFrame)%nat && (0 <? length linesVisibleRanges)%nat then
        match linesVisibleRanges !! 0%nat,
              linesVisibleRanges !! (length linesVisibleRanges - 1)%nat with
        | Some first, Some last =>
            let topLineNumber := LineVisibleRangesWithStyle.lineNumber first in
            let previousFrameTop :=
              if topLineNumber =? Range.startLineNumber viewport
              then scanFrame previousFrame topLineNumber
              else None in
            let bottomLineNumber := LineVisibleRangesWithStyle.lineNumber last in
            let previousFrameBottom :=
              if bottomLineNumber =? Range.endLineNumber viewport
              then scanFrame (rev previousFrame) bottomLineNumber
              else None in
            (dropUnstyled previousFrameTop, dropUnstyled previousFrameBottom)
        | _, _ => (None, None)
        end
      else (None, None)
  | None => (None, None)
  end.

(** ** The classifier loop (lines 153-215) *)

(** [lines[i].ranges[0]], then a property read on it. *)
Definition firstRange (lines : list StyledLine) (i : nat) : Completion StyledRange :=
  line ← deref (lines !! i);
  deref (LineVisibleRangesWithStyle.ranges line !! 0%nat).

(** [r.left + r.width], the sum rounded as the program rounds it. *)
Definition rightOf (r : StyledRange) : float :=
  (HorizontalRangeWithStyle.left r + HorizontalRangeWithStyle.width r)%float.

(** The two [top] corners of line [i]: [(startStyle.top, endStyle.top)]
    (lines 169-189).  The test [curLeft > prevLeft] is [prevLeft < curLeft]. *)
Definition topCorners (epsilon : float) (previousFrameTop : option StyledRange)
    (lines : list StyledLine) (i : nat) (curLineRange : StyledRange)
  : Completion (CornerStyle * CornerStyle) :=
  let curLeft := HorizontalRangeWithStyle.left curLineRange in
  let curRight := rightOf curLineRange in
  if (0 <? i)%nat then
    prev ← firstRange lines (i - 1);
    let prevLeft := HorizontalRangeWithStyle.left prev in
    let prevRight := rightOf prev in
    mret (if (abs (curLeft - prevLeft) <? epsilon)%float then FLAT
          else if (prevLeft <? curLeft)%float then INTERN
          else EXTERN,
          if (abs (curRight - prevRight) <? epsilon)%float then FLAT
          else if (prevLeft <? curRight)%float && (curRight <? prevRight)%float then INTERN
          else EXTERN)
  else
    match previousFrameTop with
    | Some cached =>
        s ← deref (HorizontalRangeWithStyle.startStyle cached);
        e ← deref (HorizontalRangeWithStyle.endStyle cached);
        mret (IVisibleRangeEndPointStyle.top s, IVisibleRangeEndPointStyle.top e)
    | None => mret (EXTERN, EXTERN)
    end.

(** The two [bottom] corners of line [i]:
    [(startStyle.bottom, endStyle.bottom)] (lines 191-211). *)
Definition bottomCorners (epsilon : float) (previousFrameBottom : option StyledRange)
    (lines : list StyledLine) (len i : nat) (curLineRange : StyledRange)
  : Completion (CornerStyle * CornerStyle) :=
  let curLeft := HorizontalRangeWithStyle.left curLineRange in
  let curRight := rightOf curLineRange in
  if (i + 1 <? len)%nat then
    next ← firstRange lines (i + 1);
    let nextLeft := HorizontalRangeWithStyle.left next in
    let nextRight := rightOf next in
    mret (if (abs (curLeft - nextLeft) <? epsilon)%float then FLAT
          else if (nextLeft <? curLeft)%float && (curLeft <? nextRight)%float then INTERN
          else EXTERN,
          if (abs (curRight - nextRight) <? epsilon)%float then FLAT
          else if (curRight <? nextRight)%float then INTERN
          else EXTERN)
  else
    match previousFrameBottom with
    | Some cached =>
        s ← deref (HorizontalRangeWithStyle.startStyle cached);
        e ← deref (HorizontalRangeWithStyle.endStyle cached);
        mret (IVisibleRangeEndPointStyle.bottom s, IVisibleRangeEndPointStyle.bottom e)
    | None => mret (EXTERN, EXTERN)
    end.

(** The styles the body of the loop computes for line [i], in the order
    [(startStyle, endStyle)]. *)
Definition lineStyles (epsilon : float)
    (previousFrameTop previousFrameBottom : option StyledRange)
    (lines : list StyledLine) (len i : nat) : Completion (EdgeStyle * EdgeStyle) :=
  curLineRange ← firstRange lines i;
  tops ← topCorners epsilon previousFrameTop lines i curLineRange;
  bottoms ← bottomCorners epsilon previousFrameBottom lines len i curLineRange;
  mret (IVisibleRangeEndPointStyle.mk tops.1 bottoms.1,
        IVisibleRangeEndPointStyle.mk tops.2 bottoms.2).

(** [r.startStyle = startStyle; r.endStyle = endStyle] *)
Definition withStyles (styles : EdgeStyle * EdgeStyle) (r : StyledRange) : StyledRange :=
  {| HorizontalRangeWithStyle.left := HorizontalRangeWithStyle.left r;
     HorizontalRangeWithStyle.width := HorizontalRangeWithStyle.width r;
     HorizontalRangeWithStyle.startStyle := Some styles.1;
     HorizontalRangeWithStyle.endStyle := Some styles.2 |}.

(** The same assignment seen from the line that holds the range as its
    [ranges[0]]. *)
Definition styleLine (styles : EdgeStyle * EdgeStyle) (line : StyledLine) : StyledLine :=
  {| LineVisibleRangesWithStyle.lineNumber := LineVisibleRangesWithStyle.lineNumber line;
     LineVisibleRangesWithStyle.ranges :=
       alter (withStyles styles) 0%nat (LineVisibleRangesWithStyle.ranges line) |}.

(** One iteration: compute the styles of line [i], then assign them. *)
Definition enrichStep (epsilon : float)
    (previousFrameTop previousFrameBottom : option StyledRange)
    (len i : nat) (lines : list StyledLine) : Completion (list StyledLine) :=
  styles ← lineStyles epsilon previousFrameTop previousFrameBottom lines len i;
  mret (alter (styleLine styles) i lines).

(** [for (let i = start; i < start + todo; i++) step] *)
Fixpoint enrichLoop (epsilon : float)
    (previousFrameTop previousFrameBottom : option StyledRange)
    (len todo i : nat) (lines : list StyledLine) : Completion (list StyledLine) :=
  match todo with
  | O => mret lines
  | S todo' =>
      lines' ← enrichStep epsilon previousFrameTop previousFrameBottom len i lines;
      enrichLoop epsilon previousFrameTop previousFrameBottom len todo' (S i) lines'
  end.

(** ** The view part *)

(** The fields of [SelectionsGpu] that the methods below read. *)
Record SelectionsGpu : Type := {
  _roundedSelection : bool;
  _typicalHalfwidthCharacterWidth : float;
  _selections : list Range.t
}.

(** The [RenderingContext] as this file uses it: the visible range, the
    geometry query, and the viewport data, which this file reads nothing
    of and only hands on to [ViewGpuContext.canRender]. *)
Record RenderingContext {ViewportData : Type} : Type := {
  visibleRange : Range.t;
  linesVisibleRangesForRange : Range.t -> bool -> option (list LineVisibleRanges.t);
  viewportData : ViewportData
}.
Arguments RenderingContext : clear implicits.

(** [const epsilon = this._typicalHalfwidthCharacterWidth / 4] *)
Definition epsilonOf (this : SelectionsGpu) : float :=
  (_typicalHalfwidthCharacterWidth this / 4)%float.

(** The array after the call, or the error the call throws. *)
Definition _enrichVisibleRangesWithStyle (this : SelectionsGpu) (viewport : Range.t)
    (linesVisibleRanges : list StyledLine) (previousFrame : option (list StyledLine))
  : Completion (list StyledLine) :=
  let epsilon := epsilonOf this in
  let edges := previousFrameEdges viewport linesVisibleRanges previousFrame in
  let len := length linesVisibleRanges in
  enrichLoop epsilon edges.1 edges.2 len len 0 linesVisibleRanges.

Definition _getVisibleRangesWithStyle {ViewportData : Type}
    (this : SelectionsGpu) (selection : Range.t)
    (ctx : RenderingContext ViewportData) (previousFrame : option (list StyledLine))
  : Completion (list StyledLine) :=
  let _linesVisibleRanges := default [] (linesVisibleRangesForRange ctx selection true) in
  let linesVisibleRanges := toStyled <$> _linesVisibleRanges in
  let visibleRangesHaveGaps := _visibleRangesHaveGaps linesVisibleRanges in
  if negb visibleRangesHaveGaps && _roundedSelection this
  then _enrichVisibleRangesWithStyle this (visibleRange ctx) linesVisibleRanges previousFrame
  else mret linesVisibleRanges.

(** ** Render preparation *)

(** The arguments of one call
    [rectangleRenderer.register(x, y, width, height, red, green, blue, alpha)]. *)
Module RectangleRendererEntry.
Record t : Type := mk {
  x : Q; y : Q; width : Q; height : Q;
  red : Q; green : Q; blue : Q; alpha : Q
}.
End RectangleRendererEntry.

(** [_actualRenderOneSelection] (lines 244-245).  Its body is empty: the
    rows of [output2], each a pair of inner-corner output and
    rest-of-selection output, are left as they were. *)
Definition _actualRenderOneSelection (output2 : list (string * string))
    (visibleStartLineNumber : Z) (hasMultipleSelections : bool)
    (visibleRanges : list StyledLine) : list (string * string) :=
  output2.

(** [prepareRender] (lines 334-380): the content of [_gpuShapes] after the
    call.  [isEmpty] is [Range.isEmpty] of [common/core/range.js] and
    [canRender] is [ViewGpuContext.canRender] of [gpu/viewGpuContext.js];
    [options] is the [ViewLineOptions] that line 353 builds from the
    configuration and the theme of [this._context] at the time of the
    call.  The call neither classifies the selections nor assigns
    [_renderResult]. *)
Definition prepareRender {ViewLineOptions ViewportData : Type}
    (isEmpty : Range.t -> bool)
    (canRender : ViewLineOptions -> ViewportData -> Z -> bool)
    (options : ViewLineOptions)
    (this : SelectionsGpu) (ctx : RenderingContext ViewportData)
  : list RectangleRendererEntry.t :=
  foldl
    (fun _gpuShapes selection =>
       if isEmpty selection then _gpuShapes
       else if canRender options (viewportData ctx) (Range.startLineNumber selection) then
         _gpuShapes ++
           [RectangleRendererEntry.mk
              (inject_Z (Range.startColumn selection) * 10)%Q
              (inject_Z (Range.startLineNumber selection) * 10)%Q
              100 10 1 0 0 1]
       else _gpuShapes)
    [] (_selections this).

(** * Vocabulary of the properties *)

(** ** Geometry: what the classifier reads of the lines *)

Definition unstyled (r : StyledRange) : StyledRange :=
  {| HorizontalRangeWithStyle.left := HorizontalRangeWithStyle.left r;
     HorizontalRangeWithStyle.width := HorizontalRangeWithStyle.width r;
     HorizontalRangeWithStyle.startStyle := None;
     HorizontalRangeWithStyle.endStyle := None |}.

Definition geometry (l : StyledLine) : StyledLine :=
  {| LineVisibleRangesWithStyle.lineNumber := LineVisibleRangesWithStyle.lineNumber l;
     LineVisibleRangesWithStyle.ranges := unstyled <$> LineVisibleRangesWithStyle.ranges l |}.

(** ** Reading corners off lines *)

(** [lines[i].ranges[0]] as an option, for stating results. *)
Definition rangeAt (lines : list StyledLine) (i : nat) : option StyledRange :=
  line ← lines !! i; LineVisibleRangesWithStyle.ranges line !! 0%nat.

(** One corner of [lines[i].ranges[0]]; [None] when the line, the range or
    the style is missing. *)
Definition cornerAt (edge : StyledRange -> option EdgeStyle)
    (corner : EdgeStyle -> CornerStyle) (lines : list StyledLine) (i : nat)
  : option CornerStyle :=
  r ← rangeAt lines i; s ← edge r; Some (corner s).

Definition startTopAt :=
  cornerAt HorizontalRangeWithStyle.startStyle IVisibleRangeEndPointStyle.top.
Definition startBottomAt :=
  cornerAt HorizontalRangeWithStyle.startStyle IVisibleRangeEndPointStyle.bottom.
Definition endTopAt :=
  cornerAt HorizontalRangeWithStyle.endStyle IVisibleRangeEndPointStyle.top.
Definition endBottomAt :=
  cornerAt HorizontalRangeWithStyle.endStyle IVisibleRangeEndPointStyle.bottom.

(** ** Paired styles, ranges, gaps *)

(** [startStyle] is null exactly when [endStyle] is. *)
Definition stylesPaired (r : StyledRange) : Prop :=
  HorizontalRangeWithStyle.startStyle r = None
  <-> HorizontalRangeWithStyle.endStyle r = None.

Definition framePaired (frame : list StyledLine) : Prop :=
  Forall (fun l => Forall stylesPaired (LineVisibleRangesWithStyle.ranges l)) frame.

(** Both styles are set: the reads [startStyle!.top] and [endStyle!.top]
    (and [.bottom]) succeed. *)
Definition fullyStyled (r : StyledRange) : Prop :=
  is_Some (HorizontalRangeWithStyle.startStyle r)
  /\ is_Some (HorizontalRangeWithStyle.endStyle r).

#[global] Instance EdgeStyle_eq_dec : EqDecision EdgeStyle.
Proof. solve_decision. Defined.

#[global] Instance stylesPaired_dec r : Decision (stylesPaired r).
Proof. unfold stylesPaired. apply _. Defined.

#[global] Instance framePaired_dec frame : Decision (framePaired frame).
Proof. unfold framePaired. apply _. Defined.

#[global] Instance fullyStyled_dec r : Decision (fullyStyled r).
Proof. unfold fullyStyled. apply _. Defined.

(** The line holds at least one range. *)
Definition hasRange (l : StyledLine) : Prop :=
  LineVisibleRangesWithStyle.ranges l <> [].

#[global] Instance hasRange_dec l : Decision (hasRange l).
Proof.
  unfold hasRange. destruct (LineVisibleRangesWithStyle.ranges l);
    [right; intros H; apply H; reflexivity | left; discriminate].
Defined.

(** The lines the geometry query answers for a selection. *)
Definition visibleLines {ViewportData : Type} (ctx : RenderingContext ViewportData)
    (selection : Range.t)
  : list LineVisibleRanges.t :=
  default [] (linesVisibleRangesForRange ctx selection true).

(** Some line holds two ranges or more. *)
Definition hasGapLine (geom : list LineVisibleRanges.t) : Prop :=
  Exists (fun l => (2 <= length (LineVisibleRanges.ranges l))%nat) geom.

#[global] Instance hasGapLine_dec geom : Decision (hasGapLine geom).
Proof. unfold hasGapLine. apply _. Defined.

(** All four corners EXTERN. *)
Definition allExtern (r : StyledRange) : Prop :=
  HorizontalRangeWithStyle.startStyle r = Some (IVisibleRangeEndPointStyle.mk EXTERN EXTERN)
  /\ HorizontalRangeWithStyle.endStyle r = Some (IVisibleRangeEndPointStyle.mk EXTERN EXTERN).

(** No corner classified: both styles null. *)
Definition noStyle (r : StyledRange) : Prop :=
  HorizontalRangeWithStyle.startStyle r = None
  /\ HorizontalRangeWithStyle.endStyle r = None.

Definition everyRange (P : StyledRange -> Prop) (lines : list StyledLine) : Prop :=
  Forall (fun l => Forall P (LineVisibleRangesWithStyle.ranges l)) lines.

#[global] Instance allExtern_dec r : Decision (allExtern r).
Proof. unfold allExtern. apply _. Defined.

#[global] Instance noStyle_dec r : Decision (noStyle r).
Proof. unfold noStyle. apply _. Defined.

#[global] Instance everyRange_dec P `{forall r, Decision (P r)} lines :
  Decision (everyRange P lines).
Proof. unfold everyRange. apply _. Defined.

(** ** Borrowing from the previous frame *)

(** In the specification's words: the first line, in the order visited,
    whose line number is [n]. *)
Definition firstMatching (visited : list StyledLine) (n : Z) : option StyledLine :=
  List.find (fun l => LineVisibleRangesWithStyle.lineNumber l =? n) visited.

(** The pair [(startStyle.corner, endStyle.corner)] a cached range lends to
    a boundary line: its own corners when it passes the null-guard, the
    default otherwise. *)
Definition lend (corner : EdgeStyle -> CornerStyle) (cached : StyledRange)
  : option CornerStyle * option CornerStyle :=
  match HorizontalRangeWithStyle.startStyle cached with
  | Some s => (Some (corner s), corner <$> HorizontalRangeWithStyle.endStyle cached)
  | None => (Some EXTERN, Some EXTERN)
  end.

(** In the specification's words: the entry borrowed from is [ranges[0]] of
    the first matching line. *)
Definition firstMatchingRange (visited : list StyledLine) (n : Z) : option StyledRange :=
  l ← firstMatching visited n; LineVisibleRangesWithStyle.ranges l !! 0%nat.

(** ** Reading doubles *)

(** The magnitude of a double in its specification form: the sign of a
    finite or infinite number cleared. *)
Definition SFmag (x : spec_float) : spec_float :=
  match x with
  | S754_finite _ m e => S754_finite false m e
  | S754_infinity _ => S754_infinity false
  | _ => x
  end.

(** Two doubles that are each other's negation; the two zeros count as
    opposite whatever their signs are. *)
Definition SFopposite (x y : spec_float) : Prop :=
  match x, y with
  | S754_nan, S754_nan => True
  | S754_zero _, S754_zero _ => True
  | S754_infinity s, S754_infinity s' => s' = negb s
  | S754_finite s m e, S754_finite s' m' e' => s' = negb s /\ m' = m /\ e' = e
  | _, _ => False
  end.

(** A double that is NaN, a zero, or negative. *)
Definition SFnonpos (x : spec_float) : Prop :=
  match x with
  | S754_finite s _ _ | S754_infinity s => s = true
  | _ => True
  end.

(** The real number a finite double stands for, as a fraction: the
    mantissa, with its sign, times two to the exponent; [0] for NaN and
    the infinities, on which it is not used. *)
Definition SFvalue (x : spec_float) : Q :=
  match x with
  | S754_finite s m e =>
      ((if s then - inject_Z (Z.pos m) else inject_Z (Z.pos m)) * 2 ^ e)%Q
  | _ => 0%Q
  end.

Definition exactValue (x : float) : Q := SFvalue (Prim2SF x).

(** Neither NaN nor an infinity: [Number.isFinite]. *)
Definition SFfinite (x : spec_float) : bool :=
  match x with
  | S754_zero _ | S754_finite _ _ _ => true
  | _ => false
  end.

Definition isFinite (x : float) : bool := SFfinite (Prim2SF x).

(** * Example inputs *)

(** The scenario of lines 5 to 7: a line with the single range
    [{left, width}], not yet classified. *)
Definition scenarioLine (lineNumber : Z) (left width : float) : StyledLine :=
  LineVisibleRangesWithStyle.mk lineNumber
    [HorizontalRangeWithStyle.mk left width None None].

Definition scenarioLines : list StyledLine :=
  [scenarioLine 5 10 50; scenarioLine 6 0 80; scenarioLine 7 0 30].

Definition scenarioThis : SelectionsGpu :=
  {| _roundedSelection := true;
     _typicalHalfwidthCharacterWidth := 8;
     _selections := [Range.mk 5 1 7 4] |}.

Definition scenarioViewport : Range.t := Range.mk 1 1 40 1.

(** The array the classifier leaves behind in the scenario. *)
Definition scenarioClassified : list StyledLine :=
  Eval vm_compute in
    match _enrichVisibleRangesWithStyle scenarioThis scenarioViewport scenarioLines None with
    | Normal out => out
    | Throw _ => []
    end.

Definition scenarioRange (left width : float) : StyledRange :=
  HorizontalRangeWithStyle.mk left width None None.

Definition scenarioGeometry : list LineVisibleRanges.t :=
  [LineVisibleRanges.mk 5 [HorizontalRange.mk 10 50];
   LineVisibleRanges.mk 6 [HorizontalRange.mk 0 80];
   LineVisibleRanges.mk 7 [HorizontalRange.mk 0 30]].

Definition scenarioCtx : RenderingContext unit :=
  {| visibleRange := scenarioViewport;
     linesVisibleRangesForRange := fun _ _ => Some scenarioGeometry;
     viewportData := tt |}.

(** A line indented under a wider one. *)
Definition indentedLines : list StyledLine :=
  [scenarioLine 1 0 80; scenarioLine 2 10 50].

Definition indentedClassified : list StyledLine :=
  Eval vm_compute in
    match _enrichVisibleRangesWithStyle scenarioThis scenarioViewport indentedLines None with
    | Normal out => out
    | Throw _ => []
    end.

(** Two lines whose left offsets are less than 2 apart, and whose
    difference rounds to 2. *)
Definition nearLefts : list StyledLine :=
  [scenarioLine 1 2.1 50; scenarioLine 2 0.1000000000000001 80].

Definition nearLeftsClassified : list StyledLine :=
  Eval vm_compute in
    match _enrichVisibleRangesWithStyle scenarioThis scenarioViewport nearLefts None with
    | Normal out => out
    | Throw _ => []
    end.

(** Line 7 alone in a viewport that starts and ends with it, one frame
    after the scenario. *)
Definition lastLineOnly : list StyledLine := [scenarioLine 7 0 30].

Definition lastLineViewport : Range.t := Range.mk 7 1 7 1.

Definition lastLineBorrowed : list StyledLine :=
  Eval vm_compute in
    match _enrichVisibleRangesWithStyle scenarioThis lastLineViewport lastLineOnly
            (Some scenarioClassified) with
    | Normal out => out
    | Throw _ => []
    end.

(** The scenario again, now scrolled so that line 5 is the first line of
    the viewport and the previous frame is the classified scenario. *)
Definition scrolledViewport : Range.t := Range.mk 5 1 7 1.

(** A line with two ranges, as bidirectional text produces. *)
Definition gapGeometry : list LineVisibleRanges.t :=
  [LineVisibleRanges.mk 5 [HorizontalRange.mk 0 10; HorizontalRange.mk 20 10]].

Definition gapCtx : RenderingContext unit :=
  {| visibleRange := scenarioViewport;
     linesVisibleRangesForRange := fun _ _ => Some gapGeometry;
     viewportData := tt |}.

(** A line for which the geometry query answers no range at all. *)
Definition emptyLineGeometry : list LineVisibleRanges.t :=
  [LineVisibleRanges.mk 5 []].

Definition emptyLineCtx : RenderingContext unit :=
  {| visibleRange := scenarioViewport;
     linesVisibleRangesForRange := fun _ _ => Some emptyLineGeometry;
     viewportData := tt |}.

(** * Further vocabulary *)

(** ** Reading results *)

(** A styled range and a styled line without their styles: what the
    geometry query had answered. *)
Definition toPlainRange (r : StyledRange) : HorizontalRange.t :=
  {| HorizontalRange.left := HorizontalRangeWithStyle.left r;
     HorizontalRange.width := HorizontalRangeWithStyle.width r |}.

Definition toPlain (l : StyledLine) : LineVisibleRanges.t :=
  {| LineVisibleRanges.lineNumber := LineVisibleRangesWithStyle.lineNumber l;
     LineVisibleRanges.ranges := toPlainRange <$> LineVisibleRangesWithStyle.ranges l |}.

(** The line holds exactly one range, and that range has both styles. *)
Definition singleStyledRange (l : StyledLine) : Prop :=
  exists r, LineVisibleRangesWithStyle.ranges l = [r] /\ fullyStyled r.

(** A line with number [n] either holds no range or is not there: the scan
    for [n] passes it. *)
Definition passedBy (n : Z) (l : StyledLine) : Prop :=
  LineVisibleRangesWithStyle.lineNumber l = n ->
  LineVisibleRangesWithStyle.ranges l = [].

(** The rectangle [prepareRender] registers for a selection. *)
Definition selectionRectangle (selection : Range.t) : RectangleRendererEntry.t :=
  RectangleRendererEntry.mk
    (inject_Z (Range.startColumn selection) * 10)%Q
    (inject_Z (Range.startLineNumber selection) * 10)%Q
    100 10 1 0 0 1.

(** The selections [prepareRender] registers a rectangle for. *)
Definition rendered {ViewLineOptions ViewportData : Type}
    (isEmpty : Range.t -> bool)
    (canRender : ViewLineOptions -> ViewportData -> Z -> bool)
    (options : ViewLineOptions) (ctx : RenderingContext ViewportData)
    (selection : Range.t) : bool :=
  negb (isEmpty selection)
  && canRender options (viewportData ctx) (Range.startLineNumber selection).

(** * Further example inputs *)

(** A previous frame whose two lines carry the same number. *)
Definition repeatedFrame : list StyledLine :=
  [LineVisibleRangesWithStyle.mk 7
     [HorizontalRangeWithStyle.mk 0 30
        (Some (IVisibleRangeEndPointStyle.mk FLAT EXTERN))
        (Some (IVisibleRangeEndPointStyle.mk INTERN EXTERN))];
   LineVisibleRangesWithStyle.mk 7 [HorizontalRangeWithStyle.mk 0 30 None None]].

(** The scenario with a fourth line, in two variants. *)
Definition fourLinesNarrow : list StyledLine := scenarioLines ++ [scenarioLine 8 0 5].

Definition fourLinesWide : list StyledLine := scenarioLines ++ [scenarioLine 8 0 90].

Definition fourLinesNarrowClassified : list StyledLine :=
  Eval vm_compute in
    match _enrichVisibleRangesWithStyle scenarioThis scenarioViewport fourLinesNarrow None with
    | Normal out => out
    | Throw _ => []
    end.

Definition fourLinesWideClassified : list StyledLine :=
  Eval vm_compute in
    match _enrichVisibleRangesWithStyle scenarioThis scrolledViewport fourLinesWide
            (Some scenarioClassified) with
    | Normal out => out
    | Throw _ => []
    end.

(** A line whose left offset is NaN, above a line of the scenario. *)
Definition nanLines : list StyledLine := [scenarioLine 5 nan 50; scenarioLine 6 0 80].

Definition nanClassified : list StyledLine :=
  Eval vm_compute in
    match _enrichVisibleRangesWithStyle scenarioThis scenarioViewport nanLines None with
    | Normal out => out
    | Throw _ => []
    end.

(** A configuration whose character width is zero. *)
Definition zeroWidthThis : SelectionsGpu :=
  {| _roundedSelection := true;
     _typicalHalfwidthCharacterWidth := 0;
     _selections := [] |}.

Definition zeroWidthClassified : list StyledLine :=
  Eval vm_compute in
    match _enrichVisibleRangesWithStyle zeroWidthThis scenarioViewport scenarioLines None with
    | Normal out => out
    | Throw _ => []
    end.

(** * Properties *)

(** ** Numbers *)

(** Comparison of doubles, through the specification [SFcompare] that
    [ltb_spec], [leb_spec] and [eqb_spec] relate the primitives to. *)

Lemma SFcompare_antisym x y :
  SFcompare y x = option_map CompOpp (SFcompare x y).
Proof.
  destruct x as [sx|sx| |sx mx ex], y as [sy|sy| |sy my ey]; simpl;
    try reflexivity;
    try (destruct sx; reflexivity); try (destruct sy; reflexivity);
    try (destruct sx, sy; reflexivity).
  change (Pos.compare_cont Eq my mx) with (Pos.compare my mx).
  change (Pos.compare_cont Eq mx my) with (Pos.compare mx my).
  rewrite (Z.compare_antisym ex ey), (Pos.compare_antisym mx my).
  destruct sx, sy; try reflexivity;
    destruct (ex ?= ey); simpl; try reflexivity;
    destruct (mx ?= my)%positive; reflexivity.
Qed.

(** [a < b] and [b < a] are never both true. *)
Lemma ltb_asym (a b : float) : (a <? b)%float = true -> (b <? a)%float = false.
Proof.
  rewrite !ltb_spec. unfold SFltb.
  rewrite (SFcompare_antisym (Prim2SF a) (Prim2SF b)).
  destruct (SFcompare (Prim2SF a) (Prim2SF b)) as [[]|]; simpl; congruence.
Qed.

(** [a <= b] rules out [b < a]. *)
Lemma leb_not_ltb (a b : float) : (a <=? b)%float = true -> (b <? a)%float = false.
Proof.
  rewrite ltb_spec, leb_spec. unfold SFltb, SFleb.
  rewrite (SFcompare_antisym (Prim2SF a) (Prim2SF b)).
  destruct (SFcompare (Prim2SF a) (Prim2SF b)) as [[]|]; simpl; congruence.
Qed.

(** The hand-written [abs] clears the sign of a finite or infinite
    number and leaves NaN and the zeros as they are. *)
Lemma abs_Prim2SF (n : float) : Prim2SF (abs n) = SFmag (Prim2SF n).
Proof.
  unfold abs. rewrite ltb_spec.
  change (Prim2SF 0) with (S754_zero false).
  destruct (Prim2SF n) as [s|s| |s m e] eqn:E; simpl.
  - exact E.
  - destruct s; simpl; [rewrite opp_spec, E; reflexivity | exact E].
  - exact E.
  - destruct s; simpl; [rewrite opp_spec, E; reflexivity | exact E].
Qed.

(** Rounding does not look at the sign. *)
Lemma binary_round_aux_sign prec emax m e l :
  SFopposite (binary_round_aux prec emax false m e l)
             (binary_round_aux prec emax true m e l).
Proof.
  unfold binary_round_aux.
  destruct (shr_fexp prec emax m e l) as [mrs' e'].
  destruct (shr_fexp prec emax _ e' loc_Exact) as [mrs'' e''].
  destruct (shr_m mrs''); simpl; try exact I.
  destruct (e'' <=? emax - prec); simpl; auto.
Qed.

Lemma SFopposite_sym x y : SFopposite x y -> SFopposite y x.
Proof.
  destruct x as [sx|sx| |sx mx ex], y as [sy|sy| |sy my ey]; simpl; auto.
  - intros ->. destruct sx; reflexivity.
  - intros (-> & -> & ->). destruct sx; auto.
Qed.

Lemma binary_normalize_opp prec emax m e :
  SFopposite (binary_normalize prec emax m e false)
             (binary_normalize prec emax (- m) e false).
Proof.
  destruct m as [|p|p]; simpl; [exact I | |].
  - unfold binary_round. destruct (shl_align _ _ _) as [mz ez].
    apply binary_round_aux_sign.
  - unfold binary_round. destruct (shl_align _ _ _) as [mz ez].
    apply SFopposite_sym, binary_round_aux_sign.
Qed.

(** [a - b] and [b - a] round to opposite numbers. *)
Lemma SFsub_antisym prec emax x y :
  SFopposite (SFsub prec emax x y) (SFsub prec emax y x).
Proof.
  destruct x as [sx|sx| |sx mx ex], y as [sy|sy| |sy my ey]; simpl;
    try exact I; try reflexivity;
    try (destruct sx, sy; simpl; auto; fail);
    try (destruct sx; simpl; auto; fail);
    try (destruct sy; simpl; auto; fail).
  rewrite (Z.min_comm ey ex).
  set (A := cond_Zopp sx _). set (B := cond_Zopp sy _).
  replace (B - A) with (- (A - B)) by ring.
  apply binary_normalize_opp.
Qed.

Lemma SFltb_mag_opposite d d' e :
  SFopposite d d' -> SFltb (SFmag d) e = SFltb (SFmag d') e.
Proof.
  destruct d as [s|s| |s m x], d' as [s'|s'| |s' m' x']; simpl; try contradiction;
    try reflexivity.
  intros (_ & E1 & E2); subst; reflexivity.
Qed.

(** The test [abs(a - b) < e] gives the same answer as [abs(b - a) < e]. *)
Lemma abs_sub_sym (a b e : float) :
  (abs (a - b) <? e)%float = (abs (b - a) <? e)%float.
Proof.
  rewrite !ltb_spec, !abs_Prim2SF, !sub_spec.
  apply SFltb_mag_opposite, SFsub_antisym.
Qed.

(** A number that is at least [e] does not pass the test [abs(d) < e]. *)
Lemma abs_not_below (d e : float) :
  (e <=? d)%float = true -> (abs d <? e)%float = false.
Proof.
  intros H. pose proof (leb_not_ltb _ _ H) as Hlt.
  rewrite ltb_spec in Hlt. rewrite leb_spec in H.
  rewrite ltb_spec, abs_Prim2SF.
  destruct (Prim2SF d) as [s|s| |s m x], (Prim2SF e) as [s'|s'| |s' m' x'];
    simpl in *; try reflexivity; try discriminate;
    try (destruct s; simpl in *; try discriminate; try exact Hlt; try reflexivity; fail);
    try (destruct s, s'; simpl in *; try discriminate; try exact Hlt; try reflexivity; fail).
Qed.

(** A quarter of a number that is not positive is not positive. *)
Lemma SFdiv_nonpos x :
  SFleb x (S754_zero false) = true ->
  SFnonpos (SF64div x (Prim2SF 4)).
Proof.
  change (Prim2SF 4) with (S754_finite false 4503599627370496 (-50)).
  destruct x as [s|s| |s m e]; simpl; try discriminate; try (intros; exact I).
  - destruct s; [reflexivity | discriminate].
  - destruct s; [|discriminate]. intros _.
    unfold SF64div, SFdiv.
    destruct (SFdiv_core_binary _ _ _ _ _ _) as [[mz ez] lz].
    unfold binary_round_aux.
    destruct (shr_fexp _ _ mz ez lz) as [mrs' e'].
    destruct (shr_fexp _ _ _ e' loc_Exact) as [mrs'' e''].
    destruct (shr_m mrs''); simpl; try exact I.
    destruct (_ <=? _); reflexivity.
Qed.

(** No number passes the test [abs(t) < e] when [e] is not positive. *)
Lemma abs_not_below_nonpos (t e : float) :
  SFnonpos (Prim2SF e) -> (abs t <? e)%float = false.
Proof.
  rewrite ltb_spec, abs_Prim2SF.
  destruct (Prim2SF t) as [s|s| |s m x], (Prim2SF e) as [s'|s'| |s' m' x'];
    simpl; try reflexivity; try (intros ->; reflexivity);
    try (intros _; destruct s; reflexivity).
Qed.

Lemma abs_not_below_quarter (w t : float) :
  (w <=? 0)%float = true -> (abs t <? w / 4)%float = false.
Proof.
  intros H. apply abs_not_below_nonpos. rewrite div_spec.
  apply SFdiv_nonpos. rewrite leb_spec in H. exact H.
Qed.

(** ** Doubles and the numbers they stand for *)

(** The mantissa of a double has [digits2_pos] binary digits. *)
Lemma digits2_pos_bounds m :
  2 ^ (Zpos (digits2_pos m) - 1) <= Zpos m < 2 ^ Zpos (digits2_pos m).
Proof.
  induction m as [p IH|p IH|]; simpl digits2_pos.
  - rewrite Pos2Z.inj_succ.
    replace (Z.succ (Zpos (digits2_pos p)) - 1)
      with (Z.succ (Zpos (digits2_pos p) - 1)) by lia.
    rewrite !Z.pow_succ_r by lia.
    replace (Z.succ (Zpos (digits2_pos p) - 1)) with (Zpos (digits2_pos p)) in * by lia.
    lia.
  - rewrite Pos2Z.inj_succ.
    replace (Z.succ (Zpos (digits2_pos p)) - 1)
      with (Z.succ (Zpos (digits2_pos p) - 1)) by lia.
    rewrite !Z.pow_succ_r by lia.
    replace (Z.succ (Zpos (digits2_pos p) - 1)) with (Zpos (digits2_pos p)) in * by lia.
    lia.
  - simpl. lia.
Qed.

(** A number between two consecutive powers of two has that many digits. *)
Lemma digits2_pos_unique m d :
  2 ^ (d - 1) <= Zpos m < 2 ^ d -> Zpos (digits2_pos m) = d.
Proof.
  intros [Hlo Hhi]. pose proof (digits2_pos_bounds m) as [Hlo' Hhi'].
  assert (0 < d).
  { destruct (Z.lt_trichotomy d 0) as [Hd|[Hd|Hd]]; [| |exact Hd].
    - rewrite Z.pow_neg_r in Hhi by lia. lia.
    - subst. simpl in Hhi. lia. }
  assert (Hd : ~ Zpos (digits2_pos m) < d).
  { intros Hlt. assert (2 ^ Zpos (digits2_pos m) <= 2 ^ (d - 1))
      by (apply Z.pow_le_mono_r; lia). lia. }
  assert (Hd' : ~ d < Zpos (digits2_pos m)).
  { intros Hlt. assert (2 ^ d <= 2 ^ (Zpos (digits2_pos m) - 1))
      by (apply Z.pow_le_mono_r; lia). lia. }
  lia.
Qed.

Lemma pow2_pos n : 0 <= n -> 0 < 2 ^ n.
Proof. intros. apply Z.pow_pos_nonneg; lia. Qed.

(** The larger of two numbers has the larger magnitude. *)
Lemma digits_le m1 e1 m2 e2 k :
  k <= e1 -> k <= e2 ->
  Zpos m1 * 2 ^ (e1 - k) <= Zpos m2 * 2 ^ (e2 - k) ->
  Zpos (digits2_pos m1) + e1 <= Zpos (digits2_pos m2) + e2.
Proof.
  intros H1 H2 Hle.
  pose proof (digits2_pos_bounds m1) as [Hlo1 _].
  pose proof (digits2_pos_bounds m2) as [_ Hhi2].
  set (d1 := Zpos (digits2_pos m1)) in *. set (d2 := Zpos (digits2_pos m2)) in *.
  assert (0 < d1) by (unfold d1; lia). assert (0 < d2) by (unfold d2; lia).
  destruct (Z.le_gt_cases (d1 + e1) (d2 + e2)) as [Hok|Hgt]; [exact Hok|exfalso].
  pose proof (pow2_pos (e1 - k) ltac:(lia)) as P1.
  pose proof (pow2_pos (e2 - k) ltac:(lia)) as P2.
  assert (Hpow : 2 ^ (d2 + (e2 - k)) <= 2 ^ ((d1 - 1) + (e1 - k)))
    by (apply Z.pow_le_mono_r; lia).
  rewrite !Z.pow_add_r in Hpow by lia.
  nia.
Qed.

Lemma fexp_spec x : fexp prec emax x = Z.max (x - 53) (-1074).
Proof. reflexivity. Qed.

Lemma shr_1_m mrs : 0 <= shr_m mrs -> shr_m (shr_1 mrs) = shr_m mrs / 2.
Proof.
  destruct mrs as [m r s]; simpl. intros Hm.
  destruct m as [|[p|p|]|p]; try lia; simpl shr_m.
  - reflexivity.
  - apply Z.div_unique with 1; lia.
  - apply Z.div_unique with 0; lia.
  - reflexivity.
Qed.

Lemma pow2_xO p : 2 ^ Zpos p~0 = 2 ^ Zpos p * 2 ^ Zpos p.
Proof. rewrite <- Z.pow_add_r by lia. f_equal. lia. Qed.

Lemma pow2_xI p : 2 ^ Zpos p~1 = 2 * (2 ^ Zpos p * 2 ^ Zpos p).
Proof.
  rewrite <- Z.pow_add_r by lia. rewrite <- Z.pow_succ_r by lia. f_equal. lia.
Qed.

Lemma iter_shr_m p :
  forall mrs, 0 <= shr_m mrs ->
    shr_m (SpecFloat.iter_pos shr_1 p mrs) = shr_m mrs / 2 ^ Zpos p.
Proof.
  induction p as [p IH|p IH|]; intros mrs Hm; simpl SpecFloat.iter_pos.
  - assert (H1 : 0 <= shr_m (shr_1 mrs)).
    { rewrite shr_1_m by exact Hm. apply Z.div_pos; lia. }
    assert (H2 : 0 <= shr_m (SpecFloat.iter_pos shr_1 p (shr_1 mrs))).
    { rewrite IH by exact H1. apply Z.div_pos; [exact H1 | apply pow2_pos; lia]. }
    rewrite IH by exact H2. rewrite IH by exact H1. rewrite shr_1_m by exact Hm.
    rewrite !Z.div_div by (try apply pow2_pos; lia).
    f_equal. rewrite pow2_xI. ring.
  - assert (H2 : 0 <= shr_m (SpecFloat.iter_pos shr_1 p mrs)).
    { rewrite IH by exact Hm. apply Z.div_pos; [exact Hm | apply pow2_pos; lia]. }
    rewrite IH by exact H2. rewrite IH by exact Hm.
    rewrite !Z.div_div by (try apply pow2_pos; lia).
    f_equal. rewrite pow2_xO. ring.
  - rewrite shr_1_m by exact Hm. reflexivity.
Qed.

Lemma round_nearest_even_bounds m l :
  m <= round_nearest_even m l <= m + 1.
Proof.
  destruct l as [|[]]; simpl; try lia. destruct (Z.even m); lia.
Qed.

(** Rounding a positive mantissa never goes below the truncated
    mantissa. *)
Lemma binary_round_aux_lower m e :
  let ex := fexp prec emax (Zpos (digits2_pos m) + e) in
  e <= ex ->
  1 <= Zpos m / 2 ^ (ex - e) ->
  binary_round_aux prec emax false (Zpos m) e loc_Exact = S754_infinity false
  \/ exists m'' e'',
       binary_round_aux prec emax false (Zpos m) e loc_Exact = S754_finite false m'' e''
       /\ (ex < e'' \/ (e'' = ex /\ Zpos m / 2 ^ (ex - e) <= Zpos m'')).
Proof.
  intros ex He Hq. unfold binary_round_aux, shr_fexp. simpl Zdigits2. fold ex.
  set (q := Zpos m / 2 ^ (ex - e)) in *.
  assert (Hfirst : exists mrs',
            shr (shr_record_of_loc (Zpos m) loc_Exact) e (ex - e) = (mrs', ex)
            /\ shr_m mrs' = q).
  { unfold shr. destruct (ex - e) as [|p|p] eqn:Hp; try lia.
    - eexists. split; [f_equal; lia|]. unfold q. rewrite ?Hp. simpl.
      symmetry. apply Z.div_1_r.
    - eexists. split; [f_equal; lia|]. unfold q. rewrite ?Hp.
      rewrite iter_shr_m by (simpl; lia). reflexivity. }
  destruct Hfirst as (mrs' & -> & Hm').
  rewrite Hm'.
  pose proof (round_nearest_even_bounds q (loc_of_shr_record mrs')) as Hr.
  set (mr := round_nearest_even q (loc_of_shr_record mrs')) in *.
  destruct mr as [|pr|pr] eqn:Hmr; try lia.
  simpl Zdigits2.
  pose proof (digits2_pos_bounds pr) as [Hlo Hhi].
  set (dr := Zpos (digits2_pos pr)) in *.
  assert (Hex : -1074 <= ex) by (unfold ex; rewrite fexp_spec; lia).
  unfold shr. rewrite fexp_spec.
  destruct (Z.max (dr + ex - 53) (-1074) - ex) as [|p2|p2] eqn:Hp2.
  - simpl shr_m.
    destruct (ex <=? emax - prec); [right | left; reflexivity].
    exists pr, ex. split; [reflexivity|]. right. split; [reflexivity | lia].
  - assert (Hp2' : Zpos p2 = dr - 53) by lia.
    rewrite iter_shr_m by (simpl; lia). simpl shr_m.
    assert (Hpos : 1 <= Zpos pr / 2 ^ Zpos p2).
    { apply Z.div_le_lower_bound; [apply pow2_pos; lia|].
      rewrite Z.mul_1_r. etransitivity; [|exact Hlo].
      apply Z.pow_le_mono_r; lia. }
    destruct (Zpos pr / 2 ^ Zpos p2) as [|p3|p3] eqn:Hq3; try lia.
    destruct (ex + Zpos p2 <=? emax - prec); [right | left; reflexivity].
    exists p3, (ex + Zpos p2). split; [reflexivity|]. left. lia.
  - simpl shr_m.
    destruct (ex <=? emax - prec); [right | left; reflexivity].
    exists pr, ex. split; [reflexivity|]. right. split; [reflexivity | lia].
Qed.

Lemma iter_xO m d : Zpos (Pos.iter xO m d) = Zpos m * 2 ^ Zpos d.
Proof.
  induction d as [|d IH] using Pos.peano_ind.
  - simpl. lia.
  - rewrite Pos.iter_succ, Pos2Z.inj_xO, IH, Pos2Z.inj_succ, Z.pow_succ_r by lia. ring.
Qed.

Lemma digits_iter_xO m d :
  Zpos (digits2_pos (Pos.iter xO m d)) = Zpos (digits2_pos m) + Zpos d.
Proof.
  apply digits2_pos_unique. rewrite iter_xO.
  pose proof (digits2_pos_bounds m) as [Hlo Hhi].
  pose proof (pow2_pos (Zpos d) ltac:(lia)) as Hp.
  replace (Zpos (digits2_pos m) + Zpos d - 1)
    with ((Zpos (digits2_pos m) - 1) + Zpos d) by lia.
  rewrite !Z.pow_add_r by lia. nia.
Qed.

Lemma scale_le_l a b x y k :
  k <= x -> x <= y -> a * 2 ^ (y - k) <= b * 2 ^ (x - k) -> a * 2 ^ (y - x) <= b.
Proof.
  intros Hk Hxy H. replace (y - k) with ((y - x) + (x - k)) in H by lia.
  rewrite Z.pow_add_r, Z.mul_assoc in H by lia.
  apply Z.mul_le_mono_pos_r in H; [exact H | apply pow2_pos; lia].
Qed.

Lemma scale_le_r a b x y k :
  k <= y -> y <= x -> a * 2 ^ (y - k) <= b * 2 ^ (x - k) -> a <= b * 2 ^ (x - y).
Proof.
  intros Hk Hxy H. replace (x - k) with ((x - y) + (y - k)) in H by lia.
  rewrite Z.pow_add_r, Z.mul_assoc in H by lia.
  apply Z.mul_le_mono_pos_r in H; [exact H | apply pow2_pos; lia].
Qed.

(** Rounding to nearest never takes a positive number below a double that
    is not above it. *)
Lemma binary_round_lower M ez m0 e0 k :
  bounded prec emax m0 e0 = true ->
  k <= e0 -> k <= ez ->
  Zpos m0 * 2 ^ (e0 - k) <= Zpos M * 2 ^ (ez - k) ->
  SFltb (binary_round prec emax false M ez) (S754_finite false m0 e0) = false.
Proof.
  intros Hb Hk0 Hkz Hle.
  apply andb_true_iff in Hb as [Hcan _].
  unfold canonical_mantissa in Hcan. apply Z.eqb_eq in Hcan. rewrite fexp_spec in Hcan.
  pose proof (digits_le _ _ _ _ _ Hk0 Hkz Hle) as Hd.
  pose proof (digits2_pos_bounds M) as [HloM HhiM].
  unfold binary_round.
  set (d := Zpos (digits2_pos M)) in *.
  set (ex := fexp prec emax (d + ez)).
  assert (Hex : ex = Z.max (d + ez - 53) (-1074)) by apply fexp_spec.
  assert (He0 : e0 <= ex) by lia.
  assert (Hfin : forall mz ez' q,
            fexp prec emax (Zpos (digits2_pos mz) + ez') = ex ->
            ez' <= ex ->
            q = Zpos mz / 2 ^ (ex - ez') ->
            (e0 = ex -> Zpos m0 <= q) ->
            (e0 < ex -> 1 <= q) ->
            SFltb (binary_round_aux prec emax false (Zpos mz) ez' loc_Exact)
                  (S754_finite false m0 e0) = false).
  { intros mz ez' q Hfexp Hez' Hq Hsame Hless.
    assert (H1 : 1 <= q).
    { destruct (Z.eq_dec e0 ex) as [E|E]; [specialize (Hsame E); lia | apply Hless; lia]. }
    pose proof (binary_round_aux_lower mz ez') as Hlow. cbv zeta in Hlow.
    rewrite Hfexp in Hlow. rewrite <- Hq in Hlow.
    destruct (Hlow Hez' H1) as [-> | (m'' & e'' & -> & Hcases)]; [reflexivity|].
    unfold SFltb, SFcompare.
    destruct (Z.compare_spec e'' e0) as [E|E|E]; try reflexivity; [|lia].
    destruct Hcases as [Hgt | [Heq Hm]]; [lia|].
    assert (Hm0 : (m0 <= m'')%positive) by (specialize (Hsame ltac:(lia)); lia).
    change (Pos.compare_cont Eq m'' m0) with (Pos.compare m'' m0).
    destruct (Pos.compare_spec m'' m0); try reflexivity. lia. }
  unfold shl_align. fold ex. destruct (ex - ez) as [|p|p] eqn:Hs.
  - apply (Hfin M ez (Zpos M)).
    + reflexivity.
    + lia.
    + rewrite Hs. simpl. symmetry. apply Z.div_1_r.
    + intros E. apply (scale_le_r _ _ ez e0 k) in Hle; try lia.
      replace (ez - e0) with 0 in Hle by lia. simpl in Hle. lia.
    + lia.
  - apply (Hfin M ez (Zpos M / 2 ^ Zpos p)).
    + reflexivity.
    + lia.
    + rewrite Hs. reflexivity.
    + intros E. apply Z.div_le_lower_bound; [apply pow2_pos; lia|].
      apply (scale_le_l _ _ ez e0 k) in Hle; try lia.
      replace (e0 - ez) with (Zpos p) in Hle by lia. lia.
    + intros E. apply Z.div_le_lower_bound; [apply pow2_pos; lia|].
      rewrite Z.mul_1_r. etransitivity; [|exact HloM].
      apply Z.pow_le_mono_r; lia.
  - assert (Hp : Zpos p = ez - ex) by lia.
    apply (Hfin (Pos.iter xO M p) ex (Zpos (Pos.iter xO M p))).
    + rewrite digits_iter_xO. fold d. rewrite fexp_spec. lia.
    + lia.
    + rewrite Z.sub_diag. simpl. symmetry. apply Z.div_1_r.
    + intros E. rewrite iter_xO.
      apply (scale_le_r _ _ ez e0 k) in Hle; try lia.
      replace (ez - e0) with (Zpos p) in Hle by lia. exact Hle.
    + lia.
Qed.

(** Fractions with a power of two as denominator. *)

Lemma Qpow2_pos e : (0 < 2 ^ e)%Q.
Proof. apply Qpower_0_lt. reflexivity. Qed.

Lemma Qscale (a x k : Z) :
  k <= x -> (inject_Z a * 2 ^ x == inject_Z (a * 2 ^ (x - k)) * 2 ^ k)%Q.
Proof.
  intros Hk. rewrite inject_Z_mult, Zpower_Qpower by lia.
  replace x with ((x - k) + k) at 1 by lia.
  rewrite Qpower_plus by discriminate.
  change (inject_Z 2) with 2%Q. ring.
Qed.

Lemma Qle_scaled (a b x y k : Z) :
  k <= x -> k <= y ->
  (inject_Z a * 2 ^ x <= inject_Z b * 2 ^ y)%Q <-> a * 2 ^ (x - k) <= b * 2 ^ (y - k).
Proof.
  intros Hx Hy. rewrite (Qscale a x k Hx), (Qscale b y k Hy).
  rewrite Qmult_le_r by apply Qpow2_pos. rewrite <- Zle_Qle. reflexivity.
Qed.

Lemma Qlt_scaled (a b x y k : Z) :
  k <= x -> k <= y ->
  (inject_Z a * 2 ^ x < inject_Z b * 2 ^ y)%Q <-> a * 2 ^ (x - k) < b * 2 ^ (y - k).
Proof.
  intros Hx Hy. rewrite (Qscale a x k Hx), (Qscale b y k Hy).
  rewrite Qmult_lt_r by apply Qpow2_pos. rewrite <- Zlt_Qlt. reflexivity.
Qed.

Lemma SFvalue_pos m e : (0 < SFvalue (S754_finite false m e))%Q.
Proof.
  simpl. apply Qmult_lt_0_compat; [|apply Qpow2_pos].
  rewrite <- (Zlt_Qlt 0). lia.
Qed.

Lemma SFvalue_neg m e : (SFvalue (S754_finite true m e) < 0)%Q.
Proof.
  pose proof (SFvalue_pos m e) as H. simpl in *. lra.
Qed.

Lemma binary_round_canonical m e :
  bounded prec emax m e = true ->
  binary_round prec emax false m e = S754_finite false m e.
Proof.
  intros Hb. apply andb_true_iff in Hb as [Hcan Hmax].
  unfold canonical_mantissa in Hcan. apply Z.eqb_eq in Hcan.
  unfold binary_round, shl_align. rewrite Hcan, Z.sub_diag.
  unfold binary_round_aux, shr_fexp. simpl Zdigits2. rewrite Hcan, Z.sub_diag.
  cbn [shr shr_record_of_loc loc_of_shr_record round_nearest_even shr_m Zdigits2].
  rewrite Hcan, Z.sub_diag. cbn [shr shr_m]. rewrite Hmax. reflexivity.
Qed.

(** Among positive doubles the order of the fractions is the order of the
    comparison. *)
Lemma SFltb_pos_value m1 e1 m0 e0 :
  bounded prec emax m1 e1 = true -> bounded prec emax m0 e0 = true ->
  (SFvalue (S754_finite false m0 e0) <= SFvalue (S754_finite false m1 e1))%Q ->
  SFltb (S754_finite false m1 e1) (S754_finite false m0 e0) = false.
Proof.
  intros H1 H0 Hle. rewrite <- (binary_round_canonical m1 e1 H1).
  apply (binary_round_lower m1 e1 m0 e0 (Z.min e0 e1) H0); try lia.
  apply (Qle_scaled _ _ e0 e1); try lia. exact Hle.
Qed.

Lemma SFvalue_opp m e :
  (SFvalue (S754_finite true m e) == - SFvalue (S754_finite false m e))%Q.
Proof. simpl. ring. Qed.

Lemma SFltb_pos_iff m1 e1 m2 e2 :
  bounded prec emax m1 e1 = true -> bounded prec emax m2 e2 = true ->
  SFltb (S754_finite false m1 e1) (S754_finite false m2 e2) = true
  <-> (SFvalue (S754_finite false m1 e1) < SFvalue (S754_finite false m2 e2))%Q.
Proof.
  intros H1 H2.
  assert (Hto : forall m1 e1 m2 e2,
            bounded prec emax m1 e1 = true -> bounded prec emax m2 e2 = true ->
            SFltb (S754_finite false m1 e1) (S754_finite false m2 e2) = true ->
            (SFvalue (S754_finite false m1 e1) < SFvalue (S754_finite false m2 e2))%Q).
  { intros a ea b eb Ha Hb Hlt.
    destruct (Qlt_le_dec (SFvalue (S754_finite false a ea))
                         (SFvalue (S754_finite false b eb))) as [Hok|Hle]; [exact Hok|].
    rewrite (SFltb_pos_value a ea b eb Ha Hb Hle) in Hlt. discriminate. }
  split; [apply Hto; assumption|].
  intros Hv. unfold SFltb.
  destruct (SFcompare (S754_finite false m1 e1) (S754_finite false m2 e2))
    as [[]|] eqn:Hc; try reflexivity; exfalso.
  - simpl in Hc. destruct (Z.compare_spec e1 e2) as [E|E|E]; try discriminate.
    change (Pos.compare_cont Eq m1 m2) with (Pos.compare m1 m2) in Hc.
    injection Hc as Hc. apply Pos.compare_eq in Hc. subst. lra.
  - assert (Hgt : SFltb (S754_finite false m2 e2) (S754_finite false m1 e1) = true).
    { unfold SFltb. rewrite SFcompare_antisym, Hc. reflexivity. }
    apply Hto in Hgt; try assumption. lra.
  - simpl in Hc. discriminate.
Qed.

Lemma SFltb_neg m1 e1 m2 e2 :
  SFltb (S754_finite true m1 e1) (S754_finite true m2 e2)
  = SFltb (S754_finite false m2 e2) (S754_finite false m1 e1).
Proof.
  unfold SFltb. rewrite (SFcompare_antisym (S754_finite false m1 e1)). simpl.
  destruct (e1 ?= e2); try reflexivity;
    try (destruct (Pos.compare_cont Eq m1 m2); reflexivity).
Qed.

(** On doubles that are neither NaN nor infinite, [<] is the order of the
    fractions they stand for. *)
Lemma SFltb_value x y :
  SFfinite x = true -> SFfinite y = true ->
  valid_binary x = true -> valid_binary y = true ->
  SFltb x y = true <-> (SFvalue x < SFvalue y)%Q.
Proof.
  intros Fx Fy Vx Vy.
  destruct x as [sx|sx| |sx mx ex], y as [sy|sy| |sy my ey]; try discriminate.
  - simpl. split; [discriminate | intros H; lra].
  - pose proof (SFvalue_pos my ey). pose proof (SFvalue_neg my ey).
    destruct sy; unfold SFltb; cbn [SFcompare SFvalue] in *;
      split; intros; try reflexivity; try discriminate; lra.
  - pose proof (SFvalue_pos mx ex). pose proof (SFvalue_neg mx ex).
    destruct sx; unfold SFltb; cbn [SFcompare SFvalue] in *;
      split; intros; try reflexivity; try discriminate; lra.
  - pose proof (SFvalue_pos mx ex). pose proof (SFvalue_neg mx ex).
    pose proof (SFvalue_pos my ey). pose proof (SFvalue_neg my ey).
    destruct sx, sy.
    + rewrite SFltb_neg, (SFltb_pos_iff my ey mx ex Vy Vx), !SFvalue_opp.
      split; intros; lra.
    + split; [intros _; lra | reflexivity].
    + split; [discriminate | intros; lra].
    + apply SFltb_pos_iff; assumption.
Qed.

(** The exact difference of two doubles, before it is rounded. *)

Lemma shl_align_fst m e ez :
  ez <= e -> Zpos (fst (shl_align m e ez)) = Zpos m * 2 ^ (e - ez).
Proof.
  intros H. unfold shl_align. destruct (ez - e) as [|p|p] eqn:Hp; try lia.
  - replace (e - ez) with 0 by lia. simpl. lia.
  - simpl fst. rewrite iter_xO. f_equal. f_equal. lia.
Qed.

Lemma SFvalue_cond s m e :
  (SFvalue (S754_finite s m e) == inject_Z (cond_Zopp s (Zpos m)) * 2 ^ e)%Q.
Proof. destruct s; simpl; [|reflexivity]. rewrite <- inject_Z_opp. reflexivity. Qed.

Lemma cond_Zopp_mul s a b : cond_Zopp s a * b = cond_Zopp s (a * b).
Proof. destruct s; simpl; lia. Qed.

Lemma SFsub_value sa ma ea sb mb eb :
  (SFvalue (S754_finite sa ma ea) - SFvalue (S754_finite sb mb eb)
   == inject_Z (cond_Zopp sa (Zpos (fst (shl_align ma ea (Z.min ea eb))))
                - cond_Zopp sb (Zpos (fst (shl_align mb eb (Z.min ea eb)))))
      * 2 ^ Z.min ea eb)%Q.
Proof.
  rewrite !SFvalue_cond.
  rewrite (Qscale _ ea (Z.min ea eb)), (Qscale _ eb (Z.min ea eb)) by lia.
  rewrite !shl_align_fst by lia. rewrite !cond_Zopp_mul.
  unfold Z.sub at 3. rewrite inject_Z_plus, inject_Z_opp. ring.
Qed.

Lemma binary_round_mag M e :
  SFmag (binary_round prec emax false M e) = binary_round prec emax false M e.
Proof.
  unfold binary_round. destruct (shl_align _ _ _) as [mz ez].
  unfold binary_round_aux.
  destruct (shr_fexp prec emax (Zpos mz) ez loc_Exact) as [mrs' e'].
  destruct (shr_fexp prec emax _ e' loc_Exact) as [mrs'' e''].
  destruct (shr_m mrs''); simpl; try reflexivity.
  destruct (e'' <=? _); reflexivity.
Qed.

Lemma SFsub_not_below A B m0 e0 :
  SFfinite A = true -> SFfinite B = true ->
  valid_binary A = true -> valid_binary B = true ->
  bounded prec emax m0 e0 = true ->
  (SFvalue (S754_finite false m0 e0) <= SFvalue A - SFvalue B)%Q ->
  SFltb (SFmag (SFsub prec emax A B)) (S754_finite false m0 e0) = false.
Proof.
  intros FA FB VA VB V0 Hle.
  pose proof (SFvalue_pos m0 e0) as Hpos.
  destruct A as [sa|sa| |sa ma ea], B as [sb|sb| |sb mb eb]; try discriminate.
  - exfalso. simpl in Hle, Hpos. lra.
  - pose proof (SFvalue_pos mb eb). pose proof (SFvalue_opp mb eb).
    destruct sb; [|exfalso; cbn [SFvalue] in *; lra].
    cbn [SFsub negb SFmag]. apply SFltb_pos_value; try assumption.
    cbn [SFvalue] in *. lra.
  - pose proof (SFvalue_pos ma ea). pose proof (SFvalue_opp ma ea).
    destruct sa; [exfalso; cbn [SFvalue] in *; lra|].
    cbn [SFsub SFmag]. apply SFltb_pos_value; try assumption.
    cbn [SFvalue] in *. lra.
  - rewrite SFsub_value in Hle. cbn [SFsub].
    set (Mz := cond_Zopp sa _ - cond_Zopp sb _) in *.
    destruct Mz as [|M|M] eqn:HM.
    + exfalso.
      assert (inject_Z 0 * 2 ^ Z.min ea eb == 0)%Q by ring.
      lra.
    + cbn [binary_normalize]. rewrite binary_round_mag.
      apply (binary_round_lower M (Z.min ea eb) m0 e0 (Z.min e0 (Z.min ea eb)) V0);
        try lia.
      apply (Qle_scaled _ _ e0 (Z.min ea eb)); try lia. exact Hle.
    + exfalso.
      assert (inject_Z (Z.neg M) * 2 ^ Z.min ea eb < 0)%Q.
      { pose proof (SFvalue_neg M (Z.min ea eb)) as Hn. simpl in Hn.
        rewrite <- inject_Z_opp in Hn. exact Hn. }
      lra.
Qed.

Lemma SFltb_mag_nonpos X s :
  match s with
  | S754_zero _ | S754_finite true _ _ => True
  | _ => False
  end ->
  SFltb (SFmag X) s = false.
Proof.
  destruct X as [sx|sx| |sx mx ex], s as [ss|ss| |ss ms es];
    simpl; try contradiction; try reflexivity;
    destruct ss; try contradiction; reflexivity.
Qed.

Lemma SFsub_abs_not_below A B E :
  SFfinite A = true -> SFfinite B = true -> SFfinite E = true ->
  valid_binary A = true -> valid_binary B = true -> valid_binary E = true ->
  (SFvalue E <= Qabs (SFvalue A - SFvalue B))%Q ->
  SFltb (SFmag (SFsub prec emax A B)) E = false.
Proof.
  intros FA FB FE VA VB VE Hle.
  destruct E as [se|se| |se m0 e0]; try discriminate.
  - apply SFltb_mag_nonpos. exact I.
  - destruct se; [apply SFltb_mag_nonpos; exact I|].
    revert Hle. apply Qabs_case; intros Hsign Hle.
    + apply SFsub_not_below; assumption.
    + rewrite (SFltb_mag_opposite _ _ _ (SFsub_antisym prec emax A B)).
      apply SFsub_not_below; try assumption. lra.
Qed.

(** On finite doubles [<] is the order of the numbers they stand for. *)
Lemma ltb_exact (a b : float) :
  isFinite a = true -> isFinite b = true ->
  (a <? b)%float = true <-> (exactValue a < exactValue b)%Q.
Proof.
  intros Fa Fb. rewrite ltb_spec.
  apply SFltb_value; try assumption; apply Prim2SF_valid.
Qed.

(** Two finite doubles whose exact distance is at least [e] do not pass
    the test [abs(a - b) < e]: rounding the difference does not take it
    below a double that is not above it. *)
Lemma abs_sub_exact (a b e : float) :
  isFinite a = true -> isFinite b = true -> isFinite e = true ->
  (exactValue e <= Qabs (exactValue a - exactValue b))%Q ->
  (abs (a - b) <? e)%float = false.
Proof.
  intros Fa Fb Fe Hle. rewrite ltb_spec, abs_Prim2SF, sub_spec.
  apply SFsub_abs_not_below; try assumption; apply Prim2SF_valid.
Qed.

Lemma SFleb_negb_ltb x y :
  SFfinite x = true -> SFfinite y = true -> SFleb x y = negb (SFltb y x).
Proof.
  intros Fx Fy. unfold SFleb, SFltb. rewrite (SFcompare_antisym x y).
  destruct x as [sx|sx| |sx mx ex], y as [sy|sy| |sy my ey]; try discriminate;
    destruct (SFcompare _ _) as [[]|] eqn:E; try reflexivity; simpl in E;
    try discriminate; destruct sx; try destruct sy; discriminate.
Qed.

(** Likewise for [<=]. *)
Lemma leb_exact (a b : float) :
  isFinite a = true -> isFinite b = true ->
  (a <=? b)%float = true <-> (exactValue a <= exactValue b)%Q.
Proof.
  intros Fa Fb. rewrite leb_spec, SFleb_negb_ltb, negb_true_iff by assumption.
  rewrite <- ltb_spec. split.
  - intros H. apply Qnot_lt_le. intros Hlt.
    apply (ltb_exact b a Fb Fa) in Hlt. congruence.
  - intros H. destruct (b <? a)%float eqn:E; [|reflexivity].
    apply (ltb_exact b a Fb Fa) in E. exfalso. exact (Qlt_not_le _ _ E H).
Qed.

(** ** Completions *)

Lemma bind_Normal {A B : Type} (m : Completion A) (f : A -> Completion B) (b : B) :
  m ≫= f = Normal b <-> exists a, m = Normal a /\ f a = Normal b.
Proof.
  destruct m as [a|e]; simpl; split.
  - intros H. exists a. split; [reflexivity | exact H].
  - intros (a' & Ha & H). injection Ha as <-. exact H.
  - discriminate.
  - intros (a' & Ha & _). discriminate.
Qed.

Lemma deref_Normal {A : Type} (o : option A) (a : A) :
  deref o = Normal a <-> o = Some a.
Proof. destruct o; simpl; split; congruence. Qed.

(** ** The classifier reads geometry only *)

Lemma geometry_styleLine styles l : geometry (styleLine styles l) = geometry l.
Proof.
  unfold geometry, styleLine; simpl. f_equal.
  destruct (LineVisibleRangesWithStyle.ranges l) as [|r rs]; reflexivity.
Qed.

Lemma geometry_alter_styleLine styles i (lines : list StyledLine) :
  geometry <$> alter (styleLine styles) i lines = geometry <$> lines.
Proof.
  rewrite (list_fmap_alter geometry (styleLine styles) id).
  - apply list_eq. intros j. rewrite list_lookup_alter.
    destruct (decide (i = j)) as [->|]; [|reflexivity].
    destruct ((geometry <$> lines) !! j); reflexivity.
  - apply Forall_forall. intros l _. apply geometry_styleLine.
Qed.

Lemma firstRange_geometry (lines : list StyledLine) i :
  firstRange (geometry <$> lines) i = r ← firstRange lines i; mret (unstyled r).
Proof.
  unfold firstRange. rewrite list_lookup_fmap.
  destruct (lines !! i) as [l|]; simpl; [|reflexivity].
  rewrite list_lookup_fmap.
  destruct (LineVisibleRangesWithStyle.ranges l !! 0%nat); reflexivity.
Qed.

Lemma topCorners_geometry eps pft (lines : list StyledLine) i r :
  topCorners eps pft (geometry <$> lines) i (unstyled r) = topCorners eps pft lines i r.
Proof.
  unfold topCorners. destruct (0 <? i)%nat; [|reflexivity].
  rewrite firstRange_geometry. destruct (firstRange lines (i - 1)); reflexivity.
Qed.

Lemma bottomCorners_geometry eps pfb (lines : list StyledLine) len i r :
  bottomCorners eps pfb (geometry <$> lines) len i (unstyled r)
  = bottomCorners eps pfb lines len i r.
Proof.
  unfold bottomCorners. destruct (i + 1 <? len)%nat; [|reflexivity].
  rewrite firstRange_geometry. destruct (firstRange lines (i + 1)); reflexivity.
Qed.

Lemma lineStyles_geometry eps pft pfb (lines : list StyledLine) len i :
  lineStyles eps pft pfb (geometry <$> lines) len i = lineStyles eps pft pfb lines len i.
Proof.
  unfold lineStyles. rewrite firstRange_geometry.
  destruct (firstRange lines i) as [r|]; simpl; [|reflexivity].
  rewrite topCorners_geometry, bottomCorners_geometry. reflexivity.
Qed.

(** Styles depend on the lines through their geometry only. *)
Lemma lineStyles_same_geometry eps pft pfb (a b : list StyledLine) len i :
  geometry <$> a = geometry <$> b ->
  lineStyles eps pft pfb a len i = lineStyles eps pft pfb b len i.
Proof.
  intros H. rewrite <- (lineStyles_geometry _ _ _ a), <- (lineStyles_geometry _ _ _ b).
  rewrite H. reflexivity.
Qed.

(** ** The loop *)

Lemma enrichStep_Normal eps pft pfb len i (st st' : list StyledLine) :
  enrichStep eps pft pfb len i st = Normal st' <->
  exists styles, lineStyles eps pft pfb st len i = Normal styles
                 /\ st' = alter (styleLine styles) i st.
Proof.
  unfold enrichStep. rewrite bind_Normal. split.
  - intros (styles & Hs & Hst). exists styles. split; [exact Hs|].
    injection Hst as <-. reflexivity.
  - intros (styles & Hs & ->). exists styles. split; [exact Hs | reflexivity].
Qed.

(** What a completed run of the loop over [i, i + todo) leaves behind:
    lines outside the interval are untouched, and a line inside it carries
    the styles computed from the geometry the loop started with. *)
Lemma enrichLoop_Normal eps pft pfb len todo :
  forall i (st out : list StyledLine),
    enrichLoop eps pft pfb len todo i st = Normal out ->
    geometry <$> out = geometry <$> st
    /\ (forall j, (j < i \/ i + todo <= j)%nat -> out !! j = st !! j)
    /\ (forall j l, (i <= j < i + todo)%nat -> st !! j = Some l ->
          exists styles, lineStyles eps pft pfb st len j = Normal styles
                         /\ out !! j = Some (styleLine styles l)).
Proof.
  induction todo as [|todo IH]; intros i st out H; simpl in H.
  - injection H as <-. split; [reflexivity|]. split; [reflexivity|].
    intros j l Hj. lia.
  - apply bind_Normal in H as (st' & Hstep & Hloop).
    apply enrichStep_Normal in Hstep as (styles & Hs & ->).
    destruct (IH _ _ _ Hloop) as (Hgeo & Hout & Hin).
    rewrite geometry_alter_styleLine in Hgeo.
    split; [exact Hgeo|]. split.
    + intros j Hj. rewrite Hout by lia. apply list_lookup_alter_ne. lia.
    + intros j l Hj Hl. destruct (decide (j = i)) as [->|Hne].
      * exists styles. split; [exact Hs|].
        rewrite Hout by lia. rewrite list_lookup_alter_eq, Hl. reflexivity.
      * destruct (Hin j l) as (styles' & Hs' & Ho); [lia | |].
        { rewrite list_lookup_alter_ne by lia. exact Hl. }
        exists styles'. split; [|exact Ho].
        rewrite <- Hs'. apply lineStyles_same_geometry.
        symmetry. apply geometry_alter_styleLine.
Qed.

(** The loop completes as soon as the body does on every line. *)
Lemma enrichLoop_completes eps pft pfb len todo :
  forall i (st : list StyledLine),
    (forall j, (i <= j < i + todo)%nat -> completes (lineStyles eps pft pfb st len j)) ->
    completes (enrichLoop eps pft pfb len todo i st).
Proof.
  induction todo as [|todo IH]; intros i st H; simpl.
  - eexists; reflexivity.
  - destruct (H i) as (styles & Hs); [lia|].
    unfold enrichStep. rewrite Hs. simpl.
    apply IH. intros j Hj.
    rewrite (lineStyles_same_geometry _ _ _ _ st)
      by apply geometry_alter_styleLine.
    apply H. lia.
Qed.

(** ** Corners of a classified line *)

Lemma firstRange_rangeAt (lines : list StyledLine) i r :
  firstRange lines i = Normal r <-> rangeAt lines i = Some r.
Proof.
  unfold firstRange, rangeAt. destruct (lines !! i) as [l|]; simpl.
  - apply deref_Normal.
  - split; discriminate.
Qed.

Lemma rangeAt_styleLine styles (l : StyledLine) r :
  LineVisibleRangesWithStyle.ranges l !! 0%nat = Some r ->
  LineVisibleRangesWithStyle.ranges (styleLine styles l) !! 0%nat
  = Some (withStyles styles r).
Proof.
  intros H. unfold styleLine; simpl.
  rewrite list_lookup_alter_eq, H. reflexivity.
Qed.

(** The classifier, line by line. *)
Lemma enrich_Normal this viewport (lines : list StyledLine) previousFrame out :
  _enrichVisibleRangesWithStyle this viewport lines previousFrame = Normal out ->
  let edges := previousFrameEdges viewport lines previousFrame in
  length out = length lines
  /\ geometry <$> out = geometry <$> lines
  /\ (forall i l, lines !! i = Some l ->
        exists styles,
          lineStyles (epsilonOf this) edges.1 edges.2 lines (length lines) i = Normal styles
          /\ out !! i = Some (styleLine styles l)).
Proof.
  unfold _enrichVisibleRangesWithStyle. intros H. cbv zeta in *.
  apply enrichLoop_Normal in H as (Hgeo & _ & Hin).
  split; [|split].
  - apply (f_equal length) in Hgeo. rewrite !length_fmap in Hgeo. exact Hgeo.
  - exact Hgeo.
  - intros i l Hl. apply Hin; [|exact Hl].
    apply lookup_lt_Some in Hl. lia.
Qed.

(** The same, read off the single range of line [i]. *)
Lemma enrich_rangeAt this viewport (lines : list StyledLine) previousFrame out i r :
  _enrichVisibleRangesWithStyle this viewport lines previousFrame = Normal out ->
  rangeAt lines i = Some r ->
  let edges := previousFrameEdges viewport lines previousFrame in
  exists tops bottoms,
    topCorners (epsilonOf this) edges.1 lines i r = Normal tops
    /\ bottomCorners (epsilonOf this) edges.2 lines (length lines) i r = Normal bottoms
    /\ rangeAt out i
       = Some (withStyles (IVisibleRangeEndPointStyle.mk tops.1 bottoms.1,
                           IVisibleRangeEndPointStyle.mk tops.2 bottoms.2) r).
Proof.
  intros H Hr. cbv zeta. unfold rangeAt in Hr.
  destruct (lines !! i) as [l|] eqn:Hl; [simpl in Hr | discriminate].
  destruct (enrich_Normal _ _ _ _ _ H) as (_ & _ & Hin).
  destruct (Hin i l Hl) as (styles & Hs & Ho).
  unfold lineStyles in Hs.
  apply bind_Normal in Hs as (r' & Hr' & Hs).
  apply firstRange_rangeAt in Hr'. unfold rangeAt in Hr'. rewrite Hl in Hr'.
  simpl in Hr'. rewrite Hr in Hr'. injection Hr' as <-.
  apply bind_Normal in Hs as (tops & Ht & Hs).
  apply bind_Normal in Hs as (bottoms & Hb & Hs).
  injection Hs as <-.
  exists tops, bottoms. split; [exact Ht|]. split; [exact Hb|].
  unfold rangeAt. rewrite Ho. simpl. apply rangeAt_styleLine. exact Hr.
Qed.

Lemma enrich_corners this viewport (lines : list StyledLine) previousFrame out i r :
  _enrichVisibleRangesWithStyle this viewport lines previousFrame = Normal out ->
  rangeAt lines i = Some r ->
  exists tops bottoms,
    topCorners (epsilonOf this)
      (previousFrameEdges viewport lines previousFrame).1 lines i r = Normal tops
    /\ bottomCorners (epsilonOf this)
         (previousFrameEdges viewport lines previousFrame).2 lines (length lines) i r
       = Normal bottoms
    /\ startTopAt out i = Some tops.1 /\ endTopAt out i = Some tops.2
    /\ startBottomAt out i = Some bottoms.1 /\ endBottomAt out i = Some bottoms.2.
Proof.
  intros H Hr.
  destruct (enrich_rangeAt _ _ _ _ _ _ _ H Hr) as (tops & bottoms & Ht & Hb & Ho).
  exists tops, bottoms. split; [exact Ht|]. split; [exact Hb|].
  unfold startTopAt, endTopAt, startBottomAt, endBottomAt, cornerAt.
  rewrite Ho. simpl. repeat split.
Qed.

Lemma rangeAt_lt (lines : list StyledLine) i r :
  rangeAt lines i = Some r -> (i < length lines)%nat.
Proof.
  unfold rangeAt. destruct (lines !! i) eqn:E; [|discriminate].
  intros _. eapply lookup_lt_Some. exact E.
Qed.

(** With a line above, the top corners come from the comparison with it. *)
Lemma topCorners_below eps pft (lines : list StyledLine) i prev cur :
  rangeAt lines i = Some prev ->
  topCorners eps pft lines (S i) cur
  = Normal
      (if (abs (HorizontalRangeWithStyle.left cur - HorizontalRangeWithStyle.left prev) <? eps)%float
       then FLAT
       else if (HorizontalRangeWithStyle.left prev <? HorizontalRangeWithStyle.left cur)%float
       then INTERN else EXTERN,
       if (abs (rightOf cur - rightOf prev) <? eps)%float then FLAT
       else if (HorizontalRangeWithStyle.left prev <? rightOf cur)%float
               && (rightOf cur <? rightOf prev)%float
       then INTERN else EXTERN).
Proof.
  intros Hp. apply firstRange_rangeAt in Hp.
  unfold topCorners. simpl. rewrite Nat.sub_0_r, Hp. reflexivity.
Qed.

(** With a line below, the bottom corners come from the comparison with it. *)
Lemma bottomCorners_above eps pfb (lines : list StyledLine) i cur next :
  rangeAt lines (S i) = Some next ->
  bottomCorners eps pfb lines (length lines) i cur
  = Normal
      (if (abs (HorizontalRangeWithStyle.left cur - HorizontalRangeWithStyle.left next) <? eps)%float
       then FLAT
       else if (HorizontalRangeWithStyle.left next <? HorizontalRangeWithStyle.left cur)%float
               && (HorizontalRangeWithStyle.left cur <? rightOf next)%float
       then INTERN else EXTERN,
       if (abs (rightOf cur - rightOf next) <? eps)%float then FLAT
       else if (rightOf cur <? rightOf next)%float then INTERN else EXTERN).
Proof.
  intros Hn. pose proof (rangeAt_lt _ _ _ Hn) as Hlt.
  apply firstRange_rangeAt in Hn.
  unfold bottomCorners. rewrite Nat.add_1_r.
  destruct (Nat.ltb_spec (S i) (length lines)) as [_|Hge]; [|lia].
  rewrite Hn. reflexivity.
Qed.

(** ** Geometric rules *)


(** The fraction a double stands for, on a few doubles. *)
Example exactValue_samples :
  (exactValue 2 == 2)%Q /\ (exactValue 0.5 == 1 # 2)%Q
  /\ (exactValue (-0.75) == - (3 # 4))%Q /\ (exactValue (-0) == 0)%Q
  /\ (exactValue 2.1 == 4728779608739021 # 2251799813685248)%Q.
Proof. repeat split. Qed.

(** C7, as worded, fails.  The left offsets [2.1] and
    [0.1000000000000001] differ by [2 - 2^-56], less than epsilon = 2, yet
    their difference rounds to [2] in double arithmetic, the test
    [abs(curLeft - nextLeft) < epsilon] is false on both lines, and
    neither corner at their common boundary is FLAT. *)
Lemma near_lefts_not_flat :
  rangeAt nearLefts 0 = Some (scenarioRange 2.1 50)
  /\ rangeAt nearLefts 1 = Some (scenarioRange 0.1000000000000001 80)
  /\ (exactValue 2.1 - exactValue 0.1000000000000001 == 2 - (1 # 2 ^ 56))%Q
  /\ (Qabs (exactValue 2.1 - exactValue 0.1000000000000001)
      < exactValue (epsilonOf scenarioThis))%Q
  /\ (2.1 - 0.1000000000000001)%float = 2%float
  /\ (0.1000000000000001 - 2.1)%float = (-2)%float
  /\ _enrichVisibleRangesWithStyle scenarioThis scenarioViewport nearLefts None
     = Normal nearLeftsClassified
  /\ startBottomAt nearLeftsClassified 0 = Some INTERN
  /\ startTopAt nearLeftsClassified 1 = Some EXTERN.
Proof.
  split; [reflexivity|]. split; [reflexivity|].
  split; [vm_compute; reflexivity|].
  split; [vm_compute; reflexivity|].
  split; [reflexivity|]. split; [reflexivity|].
  split; [vm_compute; reflexivity|].
  split; reflexivity.
Qed.

(** The same at the end edge.  [{left:0,width:0.1}] and
    [{left:0.2,width:1.9}] end [2 - 3 * 2^-55] apart, less than epsilon = 2;
    the program rounds [0.2 + 1.9] to [2.1] and [0.1 - 2.1] to [-2], and
    neither corner is FLAT. *)
Example near_rights_not_flat :
  ((exactValue 0.2 + exactValue 1.9) - (exactValue 0 + exactValue 0.1)
   == 2 - (3 # 2 ^ 55))%Q
  /\ (rightOf (scenarioRange 0 0.1) - rightOf (scenarioRange 0.2 1.9))%float
     = (-2)%float
  /\ exists out,
       _enrichVisibleRangesWithStyle scenarioThis scenarioViewport
         [scenarioLine 1 0 0.1; scenarioLine 2 0.2 1.9] None = Normal out
       /\ endBottomAt out 0 = Some INTERN
       /\ endTopAt out 1 = Some EXTERN.
Proof.
  split; [vm_compute; reflexivity|]. split; [reflexivity|].
  eexists. split; [vm_compute; reflexivity|]. split; reflexivity.
Qed.

(** C7, amended.  Two adjacent classified lines for which
    [abs(left - left')], computed in doubles as the program computes it,
    is less than epsilon are FLAT on both sides of their common boundary
    at the start edge; likewise at the end edge when
    [abs(right - right')], computed the same way, is less than epsilon. *)
Theorem flat_adjacency this viewport (lines : list StyledLine) previousFrame out
    i upper lower :
  _enrichVisibleRangesWithStyle this viewport lines previousFrame = Normal out ->
  rangeAt lines i = Some upper ->
  rangeAt lines (S i) = Some lower ->
  ((abs (HorizontalRangeWithStyle.left upper - HorizontalRangeWithStyle.left lower)
    <? epsilonOf this)%float = true ->
   startBottomAt out i = Some FLAT /\ startTopAt out (S i) = Some FLAT)
  /\ ((abs (rightOf upper - rightOf lower) <? epsilonOf this)%float = true ->
      endBottomAt out i = Some FLAT /\ endTopAt out (S i) = Some FLAT).
Proof.
  intros H Hu Hl.
  destruct (enrich_corners _ _ _ _ _ _ _ H Hu)
    as (tu & bu & _ & Hbu & _ & _ & Hsb & Heb).
  destruct (enrich_corners _ _ _ _ _ _ _ H Hl)
    as (tl & bl & Htl & _ & Hst & Het & _ & _).
  rewrite (bottomCorners_above _ _ _ _ _ _ Hl) in Hbu. injection Hbu as <-.
  rewrite (topCorners_below _ _ _ _ _ _ Hu) in Htl. injection Htl as <-.
  rewrite Hsb, Heb, Hst, Het. cbn [fst snd]. split; intros Hclose.
  - rewrite (abs_sub_sym (HorizontalRangeWithStyle.left lower)
               (HorizontalRangeWithStyle.left upper)), Hclose.
    split; reflexivity.
  - rewrite (abs_sub_sym (rightOf lower) (rightOf upper)), Hclose.
    split; reflexivity.
Qed.

(** C8. On a classified line with a line above: a left offset that exceeds
    the one above by at least epsilon makes [startStyle.top] INTERN; a left
    offset smaller than the one above never does, and beyond epsilon the
    corner is EXTERN.  This holds in both readings: for the differences as
    the program computes them, on all doubles; and for the offsets as real
    numbers, when they and epsilon are finite. *)
Theorem start_top_intern_direction this viewport (lines : list StyledLine)
    previousFrame out i above cur :
  _enrichVisibleRangesWithStyle this viewport lines previousFrame = Normal out ->
  rangeAt lines i = Some above ->
  rangeAt lines (S i) = Some cur ->
  let prevLeft := HorizontalRangeWithStyle.left above in
  let curLeft := HorizontalRangeWithStyle.left cur in
  (((prevLeft <? curLeft)%float = true ->
    (epsilonOf this <=? curLeft - prevLeft)%float = true ->
    startTopAt out (S i) = Some INTERN)
   /\ ((curLeft <? prevLeft)%float = true ->
       startTopAt out (S i) <> Some INTERN
       /\ ((epsilonOf this <=? prevLeft - curLeft)%float = true ->
           startTopAt out (S i) = Some EXTERN)))
  /\ (isFinite prevLeft = true -> isFinite curLeft = true ->
      isFinite (epsilonOf this) = true ->
      ((exactValue prevLeft < exactValue curLeft)%Q ->
       (exactValue (epsilonOf this) <= exactValue curLeft - exactValue prevLeft)%Q ->
       startTopAt out (S i) = Some INTERN)
      /\ ((exactValue curLeft < exactValue prevLeft)%Q ->
          startTopAt out (S i) <> Some INTERN
          /\ ((exactValue (epsilonOf this)
               <= exactValue prevLeft - exactValue curLeft)%Q ->
              startTopAt out (S i) = Some EXTERN))).
Proof.
  intros H Ha Hc. cbv zeta.
  destruct (enrich_corners _ _ _ _ _ _ _ H Hc) as (tops & bottoms & Ht & _ & -> & _).
  rewrite (topCorners_below _ _ _ _ _ _ Ha) in Ht. injection Ht as <-. cbn [fst snd].
  set (pl := HorizontalRangeWithStyle.left above).
  set (cl := HorizontalRangeWithStyle.left cur).
  split; [split|].
  - intros Hlt Heps.
    rewrite (abs_not_below _ _ Heps), Hlt. reflexivity.
  - intros Hlt.
    rewrite (ltb_asym _ _ Hlt). split.
    + destruct (abs (cl - pl) <? epsilonOf this)%float; discriminate.
    + intros Heps.
      rewrite (abs_sub_sym cl pl), (abs_not_below _ _ Heps). reflexivity.
  - intros Fp Fc Fe. split.
    + intros Hlt Heps. apply (ltb_exact _ _ Fp Fc) in Hlt.
      rewrite (abs_sub_exact cl pl _ Fc Fp Fe), Hlt; [reflexivity|].
      pose proof (Qle_Qabs (exactValue cl - exactValue pl)). lra.
    + intros Hlt. apply (ltb_exact _ _ Fc Fp) in Hlt.
      rewrite (ltb_asym _ _ Hlt). split.
      * destruct (abs (cl - pl) <? epsilonOf this)%float; discriminate.
      * intros Heps. rewrite (abs_sub_exact cl pl _ Fc Fp Fe); [reflexivity|].
        rewrite Qabs_Qminus.
        pose proof (Qle_Qabs (exactValue pl - exactValue cl)). lra.
Qed.

(** ** The scenario of lines 5 to 7 *)

(** C6. Lines 5 to 7 with epsilon 2, [{left:10,width:50}],
    [{left:0,width:80}], [{left:0,width:30}] and no previous frame: line 5
    gets EXTERN/INTERN at its start and EXTERN/INTERN at its end; line 7
    gets a FLAT [startStyle.top] and an INTERN [endStyle.top]. *)
Theorem scenario_lines_5_to_7 this viewport :
  epsilonOf this = 2%float ->
  exists out,
    _enrichVisibleRangesWithStyle this viewport scenarioLines None = Normal out
    /\ LineVisibleRangesWithStyle.lineNumber <$> out = [5; 6; 7]
    /\ startTopAt out 0 = Some EXTERN /\ startBottomAt out 0 = Some INTERN
    /\ endTopAt out 0 = Some EXTERN /\ endBottomAt out 0 = Some INTERN
    /\ startTopAt out 2 = Some FLAT /\ endTopAt out 2 = Some INTERN.
Proof.
  intros He. unfold _enrichVisibleRangesWithStyle. cbv zeta.
  rewrite He.
  eexists. split; [vm_compute; reflexivity|].
  vm_compute. repeat split.
Qed.

Lemma scenario_lines_5_to_7_witness :
  epsilonOf scenarioThis = 2%float
  /\ exists out,
    _enrichVisibleRangesWithStyle scenarioThis scenarioViewport scenarioLines None
    = Normal out
    /\ LineVisibleRangesWithStyle.lineNumber <$> out = [5; 6; 7]
    /\ startTopAt out 0 = Some EXTERN /\ startBottomAt out 0 = Some INTERN
    /\ endTopAt out 0 = Some EXTERN /\ endBottomAt out 0 = Some INTERN
    /\ startTopAt out 2 = Some FLAT /\ endTopAt out 2 = Some INTERN.
Proof.
  assert (He : epsilonOf scenarioThis = 2%float) by reflexivity.
  split; [exact He|].
  exact (scenario_lines_5_to_7 scenarioThis scenarioViewport He).
Defined.

Lemma scenario_classified :
  _enrichVisibleRangesWithStyle scenarioThis scenarioViewport scenarioLines None
  = Normal scenarioClassified.
Proof. vm_compute. reflexivity. Qed.


(** The bottom-right rule has no lower bound: a range that ends left of
    where the next line starts still gets an INTERN [endStyle.bottom]. *)
Example end_bottom_intern_left_of_next :
  let cur := scenarioRange 0 10 in
  let next := scenarioRange 20 30 in
  (rightOf cur <=? HorizontalRangeWithStyle.left next)%float = true
  /\ exists out,
       _enrichVisibleRangesWithStyle scenarioThis scenarioViewport
         [scenarioLine 1 0 10; scenarioLine 2 20 30] None = Normal out
       /\ endBottomAt out 0 = Some INTERN
       /\ startBottomAt out 0 = Some EXTERN.
Proof.
  split; [reflexivity|].
  eexists. split; [vm_compute; reflexivity|]. split; reflexivity.
Qed.

(** Sums are rounded as the program rounds them: [1.7 + 1.1] is the double
    [2.8], [0.8 - 2.8] is [-1.9999999999999998], and with epsilon = 2 the
    end edges of [{left:0,width:0.8}] over [{left:1.7,width:1.1}] are
    FLAT. *)
Example rounded_sum_is_flat :
  (rightOf (scenarioRange 0 0.8) - rightOf (scenarioRange 1.7 1.1))%float
  = (-1.9999999999999998)%float
  /\ exists out,
       _enrichVisibleRangesWithStyle scenarioThis scenarioViewport
         [scenarioLine 1 0 0.8; scenarioLine 2 1.7 1.1] None = Normal out
       /\ endBottomAt out 0 = Some FLAT
       /\ endTopAt out 1 = Some FLAT.
Proof.
  split; [reflexivity|].
  eexists. split; [vm_compute; reflexivity|]. split; reflexivity.
Qed.

Lemma flat_adjacency_witness :
  _enrichVisibleRangesWithStyle scenarioThis scenarioViewport scenarioLines None
  = Normal scenarioClassified
  /\ (abs (HorizontalRangeWithStyle.left (scenarioRange 0 80)
           - HorizontalRangeWithStyle.left (scenarioRange 0 30))
      <? epsilonOf scenarioThis)%float = true
  /\ startBottomAt scenarioClassified 1 = Some FLAT
  /\ startTopAt scenarioClassified 2 = Some FLAT.
Proof.
  assert (Hrun : _enrichVisibleRangesWithStyle scenarioThis scenarioViewport
                   scenarioLines None = Normal scenarioClassified)
    by (vm_compute; reflexivity).
  assert (Hclose : (abs (HorizontalRangeWithStyle.left (scenarioRange 0 80)
                         - HorizontalRangeWithStyle.left (scenarioRange 0 30))
                    <? epsilonOf scenarioThis)%float = true)
    by reflexivity.
  split; [exact Hrun|]. split; [exact Hclose|].
  exact (proj1 (flat_adjacency scenarioThis scenarioViewport scenarioLines None
                  scenarioClassified 1 (scenarioRange 0 80) (scenarioRange 0 30)
                  Hrun eq_refl eq_refl) Hclose).
Defined.

Lemma start_top_intern_direction_witness :
  _enrichVisibleRangesWithStyle scenarioThis scenarioViewport indentedLines None
  = Normal indentedClassified
  /\ (HorizontalRangeWithStyle.left (scenarioRange 0 80)
      <? HorizontalRangeWithStyle.left (scenarioRange 10 50))%float = true
  /\ (epsilonOf scenarioThis
      <=? HorizontalRangeWithStyle.left (scenarioRange 10 50)
          - HorizontalRangeWithStyle.left (scenarioRange 0 80))%float = true
  /\ (exactValue (HorizontalRangeWithStyle.left (scenarioRange 0 80))
      < exactValue (HorizontalRangeWithStyle.left (scenarioRange 10 50)))%Q
  /\ (exactValue (epsilonOf scenarioThis)
      <= exactValue (HorizontalRangeWithStyle.left (scenarioRange 10 50))
         - exactValue (HorizontalRangeWithStyle.left (scenarioRange 0 80)))%Q
  /\ startTopAt indentedClassified 1 = Some INTERN.
Proof.
  assert (Hrun : _enrichVisibleRangesWithStyle scenarioThis scenarioViewport
                   indentedLines None = Normal indentedClassified)
    by (vm_compute; reflexivity).
  assert (Hlt : (HorizontalRangeWithStyle.left (scenarioRange 0 80)
                 <? HorizontalRangeWithStyle.left (scenarioRange 10 50))%float = true)
    by reflexivity.
  assert (Heps : (epsilonOf scenarioThis
                  <=? HorizontalRangeWithStyle.left (scenarioRange 10 50)
                      - HorizontalRangeWithStyle.left (scenarioRange 0 80))%float = true)
    by reflexivity.
  assert (Hlt' : (exactValue (HorizontalRangeWithStyle.left (scenarioRange 0 80))
                  < exactValue (HorizontalRangeWithStyle.left (scenarioRange 10 50)))%Q)
    by (vm_compute; reflexivity).
  assert (Heps' : (exactValue (epsilonOf scenarioThis)
                   <= exactValue (HorizontalRangeWithStyle.left (scenarioRange 10 50))
                      - exactValue (HorizontalRangeWithStyle.left (scenarioRange 0 80)))%Q)
    by (apply Qle_bool_imp_le; vm_compute; reflexivity).
  destruct (start_top_intern_direction scenarioThis scenarioViewport indentedLines
              None indentedClassified 0 (scenarioRange 0 80) (scenarioRange 10 50)
              Hrun eq_refl eq_refl) as [[Hcomputed _] Hreal].
  split; [exact Hrun|]. split; [exact Hlt|]. split; [exact Heps|].
  split; [exact Hlt'|]. split; [exact Heps'|].
  exact (proj1 (Hreal eq_refl eq_refl eq_refl) Hlt' Heps').
Defined.

(** ** Running the classifier again *)

Lemma previousFrameEdges_geometry viewport (lines : list StyledLine) previousFrame :
  previousFrameEdges viewport (geometry <$> lines) previousFrame
  = previousFrameEdges viewport lines previousFrame.
Proof.
  unfold previousFrameEdges. destruct previousFrame as [frame|]; [|reflexivity].
  rewrite length_fmap, !list_lookup_fmap.
  destruct (lines !! 0%nat), (lines !! (length lines - 1)%nat); reflexivity.
Qed.

Lemma withStyles_twice styles r :
  withStyles styles (withStyles styles r) = withStyles styles r.
Proof. reflexivity. Qed.

Lemma styleLine_twice styles l :
  styleLine styles (styleLine styles l) = styleLine styles l.
Proof.
  unfold styleLine; simpl. f_equal.
  destruct (LineVisibleRangesWithStyle.ranges l); reflexivity.
Qed.

(** C9. A second run of the classifier on the array the first run wrote
    into, with the same viewport and the same previous frame, assigns the
    same styles again: the array is left as the first run left it. *)
Theorem classification_idempotent this viewport (lines : list StyledLine)
    previousFrame out :
  _enrichVisibleRangesWithStyle this viewport lines previousFrame = Normal out ->
  _enrichVisibleRangesWithStyle this viewport out previousFrame = Normal out.
Proof.
  intros H. destruct (enrich_Normal _ _ _ _ _ H) as (Hlen & Hgeo & Hin).
  cbv zeta in Hin.
  assert (Hedges : previousFrameEdges viewport out previousFrame
                   = previousFrameEdges viewport lines previousFrame).
  { rewrite <- (previousFrameEdges_geometry _ out), Hgeo.
    apply previousFrameEdges_geometry. }
  assert (Hstyles : forall i,
    lineStyles (epsilonOf this) (previousFrameEdges viewport out previousFrame).1
      (previousFrameEdges viewport out previousFrame).2 out (length out) i
    = lineStyles (epsilonOf this) (previousFrameEdges viewport lines previousFrame).1
        (previousFrameEdges viewport lines previousFrame).2 lines (length lines) i).
  { intros i. rewrite Hedges, Hlen. apply lineStyles_same_geometry. exact Hgeo. }
  assert (Hrun : completes (_enrichVisibleRangesWithStyle this viewport out previousFrame)).
  { unfold _enrichVisibleRangesWithStyle. cbv zeta.
    apply enrichLoop_completes. intros j Hj. rewrite Hstyles.
    destruct (lookup_lt_is_Some_2 lines j) as (l & Hl); [lia|].
    destruct (Hin j l Hl) as (styles & Hs & _). exists styles. exact Hs. }
  destruct Hrun as (out2 & H2). rewrite H2. f_equal.
  destruct (enrich_Normal _ _ _ _ _ H2) as (Hlen2 & _ & Hin2). cbv zeta in Hin2.
  apply list_eq. intros i.
  destruct (lines !! i) as [l|] eqn:Hl.
  - destruct (Hin i l Hl) as (styles & Hs & Ho).
    destruct (Hin2 i _ Ho) as (styles2 & Hs2 & Ho2).
    rewrite Hstyles, Hs in Hs2. injection Hs2 as <-.
    rewrite Ho2, Ho, styleLine_twice. reflexivity.
  - apply lookup_ge_None in Hl.
    rewrite (proj2 (lookup_ge_None out2 i)), (proj2 (lookup_ge_None out i)) by lia.
    reflexivity.
Qed.

Lemma classification_idempotent_witness :
  _enrichVisibleRangesWithStyle scenarioThis scenarioViewport scenarioLines None
  = Normal scenarioClassified
  /\ _enrichVisibleRangesWithStyle scenarioThis scenarioViewport scenarioClassified None
     = Normal scenarioClassified.
Proof.
  assert (Hrun : _enrichVisibleRangesWithStyle scenarioThis scenarioViewport
                   scenarioLines None = Normal scenarioClassified)
    by (vm_compute; reflexivity).
  split; [exact Hrun|].
  exact (classification_idempotent scenarioThis scenarioViewport scenarioLines None
           scenarioClassified Hrun).
Defined.

(** ** Start and end styles come in pairs *)

Lemma toStyledRange_unstyled item :
  HorizontalRangeWithStyle.startStyle (toStyledRange item) = None
  /\ HorizontalRangeWithStyle.endStyle (toStyledRange item) = None.
Proof. split; reflexivity. Qed.

Lemma toStyled_paired (geom : list LineVisibleRanges.t) :
  framePaired (toStyled <$> geom).
Proof.
  unfold framePaired. apply Forall_fmap, Forall_forall. intros l _. simpl.
  apply Forall_fmap, Forall_forall. intros item _. split; reflexivity.
Qed.

Lemma withStyles_paired styles r : stylesPaired (withStyles styles r).
Proof. split; discriminate. Qed.

Lemma styleLine_paired styles l :
  Forall stylesPaired (LineVisibleRangesWithStyle.ranges l) ->
  Forall stylesPaired (LineVisibleRangesWithStyle.ranges (styleLine styles l)).
Proof.
  intros H. unfold styleLine; simpl. apply Forall_alter; [exact H|].
  intros r _ _. apply withStyles_paired.
Qed.

Lemma enrich_paired this viewport (lines : list StyledLine) previousFrame out :
  framePaired lines ->
  _enrichVisibleRangesWithStyle this viewport lines previousFrame = Normal out ->
  framePaired out.
Proof.
  intros Hp H. destruct (enrich_Normal _ _ _ _ _ H) as (Hlen & _ & Hin).
  cbv zeta in Hin. unfold framePaired in *. apply Forall_lookup. intros i x Hx.
  destruct (lookup_lt_is_Some_2 lines i) as (l & Hl).
  { rewrite <- Hlen. eapply lookup_lt_Some. exact Hx. }
  destruct (Hin i l Hl) as (styles & _ & Ho). rewrite Ho in Hx. injection Hx as <-.
  apply styleLine_paired. exact (proj1 (Forall_lookup _ _) Hp i l Hl).
Qed.

Lemma getVisibleRanges_paired {ViewportData : Type}
    this selection (ctx : RenderingContext ViewportData) previousFrame out :
  _getVisibleRangesWithStyle this selection ctx previousFrame = Normal out ->
  framePaired out.
Proof.
  unfold _getVisibleRangesWithStyle. cbv zeta.
  destruct (negb _ && _).
  - apply enrich_paired, toStyled_paired.
  - intros H. injection H as <-. apply toStyled_paired.
Qed.

(** What the scan returns is the first range of a line of the frame. *)
Lemma scanFrame_Some (visited : list StyledLine) n r :
  scanFrame visited n = Some r ->
  exists l, l ∈ visited /\ LineVisibleRangesWithStyle.lineNumber l = n
            /\ LineVisibleRangesWithStyle.ranges l !! 0%nat = Some r.
Proof.
  induction visited as [|l rest IH]; simpl; [discriminate|].
  destruct (Z.eqb_spec (LineVisibleRangesWithStyle.lineNumber l) n) as [Hn|Hn].
  - destruct (LineVisibleRangesWithStyle.ranges l !! 0%nat) as [r0|] eqn:Hr.
    + intros H. injection H as <-. exists l. split; [left | split; assumption].
    + intros H. destruct (IH H) as (l' & Hin & Hl'). exists l'.
      split; [right; exact Hin | exact Hl'].
  - intros H. destruct (IH H) as (l' & Hin & Hl'). exists l'.
    split; [right; exact Hin | exact Hl'].
Qed.

Lemma scanFrame_paired (visited : list StyledLine) n r :
  framePaired visited -> scanFrame visited n = Some r -> stylesPaired r.
Proof.
  intros Hp H. apply scanFrame_Some in H as (l & Hin & _ & Hr).
  unfold framePaired in Hp. rewrite Forall_forall in Hp.
  specialize (Hp l Hin). rewrite Forall_lookup in Hp. exact (Hp _ _ Hr).
Qed.

Lemma dropUnstyled_fullyStyled found r :
  (forall r', found = Some r' -> stylesPaired r') ->
  dropUnstyled found = Some r -> fullyStyled r.
Proof.
  intros Hp. unfold dropUnstyled. destruct found as [r'|]; [|discriminate].
  destruct (HorizontalRangeWithStyle.startStyle r') as [s|] eqn:Hs; [|discriminate].
  intros H. injection H as <-. specialize (Hp r' eq_refl).
  unfold fullyStyled. rewrite Hs. split; [eexists; reflexivity|].
  destruct (HorizontalRangeWithStyle.endStyle r') as [e|] eqn:He; [eexists; reflexivity|].
  destruct Hp as [_ Hp]. rewrite Hs in Hp. specialize (Hp He). discriminate.
Qed.

Lemma framePaired_rev (frame : list StyledLine) :
  framePaired frame -> framePaired (rev frame).
Proof.
  unfold framePaired. rewrite !Forall_forall. intros H l Hl. apply H.
  apply list_elem_of_In, in_rev, list_elem_of_In. exact Hl.
Qed.

(** After the null-guard on [startStyle], a borrowed entry of a paired
    frame has its [endStyle] too. *)
Lemma previousFrameEdges_fullyStyled viewport (lines : list StyledLine) previousFrame :
  (forall frame, previousFrame = Some frame -> framePaired frame) ->
  (forall r, (previousFrameEdges viewport lines previousFrame).1 = Some r -> fullyStyled r)
  /\ (forall r, (previousFrameEdges viewport lines previousFrame).2 = Some r -> fullyStyled r).
Proof.
  intros Hp. unfold previousFrameEdges.
  destruct previousFrame as [frame|]; [|split; discriminate].
  specialize (Hp frame eq_refl).
  destruct (_ && _); [|split; discriminate].
  destruct (lines !! 0%nat) as [first|]; [|split; discriminate].
  destruct (lines !! (length lines - 1)%nat) as [last|]; [|split; discriminate].
  simpl. split; intros r; apply dropUnstyled_fullyStyled; intros r'.
  - destruct (_ =? _); [|discriminate]. apply scanFrame_paired. exact Hp.
  - destruct (_ =? _); [|discriminate]. apply scanFrame_paired.
    apply framePaired_rev. exact Hp.
Qed.

(** ** When the classifier completes *)

Lemma borrowed_completes (corner : EdgeStyle -> CornerStyle) cached :
  fullyStyled cached ->
  completes (s ← deref (HorizontalRangeWithStyle.startStyle cached);
             e ← deref (HorizontalRangeWithStyle.endStyle cached);
             mret (corner s, corner e)).
Proof.
  intros [[s Hs] [e He]]. rewrite Hs, He. eexists; reflexivity.
Qed.

Lemma lineStyles_completes eps pft pfb (lines : list StyledLine) i :
  (forall j, (j < length lines)%nat -> is_Some (rangeAt lines j)) ->
  (forall r, pft = Some r -> fullyStyled r) ->
  (forall r, pfb = Some r -> fullyStyled r) ->
  (i < length lines)%nat ->
  completes (lineStyles eps pft pfb lines (length lines) i).
Proof.
  intros Hr Ht Hb Hi. unfold lineStyles.
  destruct (Hr i Hi) as (cur & Hcur). apply firstRange_rangeAt in Hcur.
  rewrite Hcur. simpl.
  assert (Htop : completes (topCorners eps pft lines i cur)).
  { unfold topCorners. destruct (Nat.ltb_spec 0 i) as [Hpos|_].
    - destruct (Hr (i - 1)%nat) as (p & Hp); [lia|].
      apply firstRange_rangeAt in Hp. rewrite Hp. eexists; reflexivity.
    - destruct pft as [cached|]; [|eexists; reflexivity].
      apply (borrowed_completes IVisibleRangeEndPointStyle.top), Ht. reflexivity. }
  assert (Hbot : completes (bottomCorners eps pfb lines (length lines) i cur)).
  { unfold bottomCorners. destruct (Nat.ltb_spec (i + 1) (length lines)) as [Hlt|_].
    - destruct (Hr (i + 1)%nat Hlt) as (p & Hp).
      apply firstRange_rangeAt in Hp. rewrite Hp. eexists; reflexivity.
    - destruct pfb as [cached|]; [|eexists; reflexivity].
      apply (borrowed_completes IVisibleRangeEndPointStyle.bottom), Hb. reflexivity. }
  destruct Htop as (tops & ->), Hbot as (bottoms & ->). eexists; reflexivity.
Qed.

Lemma hasRange_rangeAt (lines : list StyledLine) :
  Forall hasRange lines ->
  forall j, (j < length lines)%nat -> is_Some (rangeAt lines j).
Proof.
  intros H j Hj. destruct (lookup_lt_is_Some_2 lines j Hj) as (l & Hl).
  unfold rangeAt. rewrite Hl. simpl.
  pose proof (proj1 (Forall_lookup _ _) H j l Hl) as Hne. unfold hasRange in Hne.
  destruct (LineVisibleRangesWithStyle.ranges l) as [|r rs]; [congruence|].
  exists r. reflexivity.
Qed.

(** With a range on every line and a paired previous frame, no property
    read of the classifier fails. *)
Lemma enrich_completes this viewport (lines : list StyledLine) previousFrame :
  Forall hasRange lines ->
  (forall frame, previousFrame = Some frame -> framePaired frame) ->
  completes (_enrichVisibleRangesWithStyle this viewport lines previousFrame).
Proof.
  intros Hr Hp. unfold _enrichVisibleRangesWithStyle. cbv zeta.
  destruct (previousFrameEdges_fullyStyled viewport lines previousFrame Hp) as [Ht Hb].
  apply enrichLoop_completes. intros j Hj.
  apply lineStyles_completes; [apply hasRange_rangeAt, Hr | exact Ht | exact Hb | lia].
Qed.

(** A classified line has a range. *)
Lemma enrich_has_range this viewport (lines : list StyledLine) previousFrame out i l :
  _enrichVisibleRangesWithStyle this viewport lines previousFrame = Normal out ->
  lines !! i = Some l ->
  exists r, rangeAt lines i = Some r.
Proof.
  intros H Hl. destruct (enrich_Normal _ _ _ _ _ H) as (_ & _ & Hin).
  destruct (Hin i l Hl) as (styles & Hs & _). unfold lineStyles in Hs.
  apply bind_Normal in Hs as (r & Hr & _). exists r.
  apply firstRange_rangeAt. exact Hr.
Qed.

(** C10. A range is built with both styles null, the classifier sets both
    or neither, so every frame this file produces has [startStyle] null
    exactly when [endStyle] is; on such a previous frame the entries that
    pass the null-guard on [startStyle] have an [endStyle] as well, and the
    classifier completes on lines that each hold a range. *)
Theorem styles_assigned_together :
  (forall item,
     HorizontalRangeWithStyle.startStyle (toStyledRange item) = None
     /\ HorizontalRangeWithStyle.endStyle (toStyledRange item) = None)
  /\ (forall this viewport lines previousFrame out,
        framePaired lines ->
        _enrichVisibleRangesWithStyle this viewport lines previousFrame = Normal out ->
        framePaired out)
  /\ (forall (ViewportData : Type) this selection
             (ctx : RenderingContext ViewportData) previousFrame out,
        _getVisibleRangesWithStyle this selection ctx previousFrame = Normal out ->
        framePaired out)
  /\ (forall this viewport lines previousFrame,
        (forall frame, previousFrame = Some frame -> framePaired frame) ->
        (forall cached,
           (previousFrameEdges viewport lines previousFrame).1 = Some cached
           \/ (previousFrameEdges viewport lines previousFrame).2 = Some cached ->
           fullyStyled cached)
        /\ (Forall hasRange lines ->
            completes (_enrichVisibleRangesWithStyle this viewport lines previousFrame))).
Proof.
  split; [exact toStyledRange_unstyled|].
  split; [exact enrich_paired|].
  split; [exact (@getVisibleRanges_paired)|].
  intros this viewport lines previousFrame Hp. split.
  - destruct (previousFrameEdges_fullyStyled viewport lines previousFrame Hp) as [Ht Hb].
    intros cached [H|H]; [apply Ht | apply Hb]; exact H.
  - intros Hr. apply enrich_completes; assumption.
Qed.

Lemma styles_assigned_together_witness :
  framePaired scenarioClassified
  /\ completes (_enrichVisibleRangesWithStyle scenarioThis scrolledViewport
                  scenarioLines (Some scenarioClassified)).
Proof.
  destruct styles_assigned_together as (_ & Hmut & _ & Hguard).
  assert (Hp : framePaired scenarioClassified).
  { apply (Hmut scenarioThis scenarioViewport scenarioLines None).
    - repeat constructor; discriminate.
    - vm_compute. reflexivity. }
  split; [exact Hp|].
  apply (Hguard scenarioThis scrolledViewport scenarioLines (Some scenarioClassified)).
  - intros frame Hf. injection Hf as <-. exact Hp.
  - repeat constructor; discriminate.
Defined.

(** ** The gap check and the per-selection entry point *)

Lemma visibleRangesHaveGaps_true (lines : list StyledLine) :
  _visibleRangesHaveGaps lines = true
  <-> Exists (fun l => (2 <= length (LineVisibleRangesWithStyle.ranges l))%nat) lines.
Proof.
  induction lines as [|l rest IH]; simpl.
  - split; [discriminate | intros H; inversion H].
  - destruct (Nat.ltb_spec 1 (length (LineVisibleRangesWithStyle.ranges l))) as [Hlt|Hge].
    + split; [intros _; left; lia | reflexivity].
    + rewrite IH. split; [intros H; right; exact H|].
      intros H. inversion H as [? ? Hl|? ? Hrest]; subst; [lia | exact Hrest].
Qed.

Lemma visibleRangesHaveGaps_false (lines : list StyledLine) :
  _visibleRangesHaveGaps lines = false
  <-> Forall (fun l => (length (LineVisibleRangesWithStyle.ranges l) <= 1)%nat) lines.
Proof.
  induction lines as [|l rest IH]; simpl.
  - split; [constructor | reflexivity].
  - destruct (Nat.ltb_spec 1 (length (LineVisibleRangesWithStyle.ranges l))) as [Hlt|Hge].
    + split; [discriminate|]. intros H. inversion H; subst. lia.
    + rewrite IH. split; [intros H; constructor; assumption|].
      intros H. inversion H; subst. assumption.
Qed.

Lemma toStyled_gaps (geom : list LineVisibleRanges.t) :
  _visibleRangesHaveGaps (toStyled <$> geom) = true <-> hasGapLine geom.
Proof.
  rewrite visibleRangesHaveGaps_true. unfold hasGapLine.
  rewrite Exists_fmap.
  split; intros H; eapply Exists_impl; try exact H;
    intros l; simpl; rewrite length_fmap; trivial.
Qed.

(** C1, as stated, fails: with a gap on line 5 the entry point returns
    ranges whose styles are null, not EXTERN/EXTERN. *)
Lemma gap_styles_not_extern :
  hasGapLine (visibleLines gapCtx (Range.mk 5 1 5 9))
  /\ exists out,
       _getVisibleRangesWithStyle scenarioThis (Range.mk 5 1 5 9) gapCtx None = Normal out
       /\ ~ everyRange allExtern out.
Proof.
  split.
  - left. simpl. lia.
  - eexists. split; [vm_compute; reflexivity|].
    intros H. inversion H as [|? ? Hl _]; subst.
    inversion Hl as [|? ? [Hs _] _]; subst. discriminate Hs.
Qed.

(** C1, amended. With a gap on some visible line the classifier is not
    run: the entry point returns the freshly built lines, and every range
    of them has a null [startStyle] and a null [endStyle]. *)
Theorem gap_suppression {ViewportData : Type}
    this selection (ctx : RenderingContext ViewportData) previousFrame :
  hasGapLine (visibleLines ctx selection) ->
  _getVisibleRangesWithStyle this selection ctx previousFrame
  = Normal (toStyled <$> visibleLines ctx selection)
  /\ everyRange noStyle (toStyled <$> visibleLines ctx selection).
Proof.
  intros Hgap. split.
  - unfold _getVisibleRangesWithStyle. cbv zeta. fold (visibleLines ctx selection).
    apply toStyled_gaps in Hgap. rewrite Hgap. reflexivity.
  - unfold everyRange. apply Forall_fmap, Forall_forall. intros l _. simpl.
    apply Forall_fmap, Forall_forall. intros item _. split; reflexivity.
Qed.

Lemma gap_suppression_witness :
  hasGapLine (visibleLines gapCtx (Range.mk 5 1 5 9))
  /\ _getVisibleRangesWithStyle scenarioThis (Range.mk 5 1 5 9) gapCtx None
     = Normal (toStyled <$> gapGeometry)
  /\ everyRange noStyle (toStyled <$> gapGeometry).
Proof.
  assert (Hgap : hasGapLine (visibleLines gapCtx (Range.mk 5 1 5 9)))
    by (left; simpl; lia).
  split; [exact Hgap|].
  exact (gap_suppression scenarioThis (Range.mk 5 1 5 9) gapCtx None Hgap).
Defined.

(** C4. The entry point is not total: with rounded selections enabled, a
    visible line without any range passes the gap check (it has no more
    than one range) and the classifier then reads [left] of
    [ranges[0]], which is [undefined]. *)
Theorem empty_line_throws :
  _visibleRangesHaveGaps (toStyled <$> emptyLineGeometry) = false
  /\ _getVisibleRangesWithStyle scenarioThis (Range.mk 5 1 5 9) emptyLineCtx None
     = Throw TypeError.
Proof. split; vm_compute; reflexivity. Qed.

(** The failure is general: whenever the classifier runs on lines of which
    one has no range, it throws, whatever the viewport and the previous
    frame. *)
Lemma enrich_throws_on_empty_line this viewport (lines : list StyledLine) previousFrame :
  Exists (fun l => LineVisibleRangesWithStyle.ranges l = []) lines ->
  _enrichVisibleRangesWithStyle this viewport lines previousFrame = Throw TypeError.
Proof.
  intros Hex.
  destruct (_enrichVisibleRangesWithStyle this viewport lines previousFrame)
    as [out|[]] eqn:H; [exfalso | reflexivity].
  apply Exists_exists in Hex as (l & Hin & Hempty).
  apply list_elem_of_lookup in Hin as (i & Hl).
  destruct (enrich_has_range _ _ _ _ _ _ _ H Hl) as (r & Hr).
  unfold rangeAt in Hr. rewrite Hl in Hr. simpl in Hr. rewrite Hempty in Hr.
  discriminate.
Qed.

(** Where the entry point does complete: every line holds a range (or the
    classifier is not run at all) and the previous frame is one this file
    produced. *)
Lemma getVisibleRanges_completes {ViewportData : Type}
    this selection (ctx : RenderingContext ViewportData) previousFrame :
  Forall (fun l => LineVisibleRanges.ranges l <> []) (visibleLines ctx selection) ->
  (forall frame, previousFrame = Some frame -> framePaired frame) ->
  completes (_getVisibleRangesWithStyle this selection ctx previousFrame).
Proof.
  intros Hr Hp. unfold _getVisibleRangesWithStyle. cbv zeta.
  fold (visibleLines ctx selection).
  destruct (negb _ && _); [|eexists; reflexivity].
  apply enrich_completes; [|exact Hp].
  apply Forall_fmap. eapply Forall_impl; [exact Hr|].
  intros l Hl. unfold hasRange. simpl in *.
  destruct (LineVisibleRanges.ranges l); [exfalso; apply Hl; reflexivity | discriminate].
Qed.

(** ** Borrowing from the previous frame *)

Lemma scanFrame_firstMatching (visited : list StyledLine) n l cached :
  firstMatching visited n = Some l ->
  LineVisibleRangesWithStyle.ranges l !! 0%nat = Some cached ->
  scanFrame visited n = Some cached.
Proof.
  unfold firstMatching. induction visited as [|x rest IH]; simpl; [discriminate|].
  destruct (LineVisibleRangesWithStyle.lineNumber x =? n).
  - intros H Hr. injection H as ->. rewrite Hr. reflexivity.
  - exact IH.
Qed.

Lemma scanFrame_no_match (visited : list StyledLine) n :
  firstMatching visited n = None -> scanFrame visited n = None.
Proof.
  unfold firstMatching. induction visited as [|x rest IH]; simpl; [reflexivity|].
  destruct (LineVisibleRangesWithStyle.lineNumber x =? n); [discriminate | exact IH].
Qed.

Lemma previousFrameEdges_top viewport (lines : list StyledLine) previousFrame first :
  lines !! 0%nat = Some first ->
  (previousFrameEdges viewport lines previousFrame).1
  = dropUnstyled
      (if LineVisibleRangesWithStyle.lineNumber first =? Range.startLineNumber viewport
       then scanFrame (default [] previousFrame) (LineVisibleRangesWithStyle.lineNumber first)
       else None).
Proof.
  intros Hf. unfold previousFrameEdges.
  destruct previousFrame as [[|p ps]|]; simpl default;
    try (destruct (_ =? _); reflexivity).
  destruct lines as [|x rest]; [discriminate|]. injection Hf as ->.
  change (0 <? length (p :: ps))%nat with true.
  change (0 <? length (first :: rest))%nat with true. cbn [andb].
  cbn [lookup list_lookup].
  destruct ((first :: rest) !! (length (first :: rest) - 1)%nat) as [last|] eqn:Hlast.
  - reflexivity.
  - apply lookup_ge_None in Hlast. simpl in Hlast. lia.
Qed.

Lemma previousFrameEdges_bottom viewport (lines : list StyledLine) previousFrame last :
  lines !! (length lines - 1)%nat = Some last ->
  (previousFrameEdges viewport lines previousFrame).2
  = dropUnstyled
      (if LineVisibleRangesWithStyle.lineNumber last =? Range.endLineNumber viewport
       then scanFrame (rev (default [] previousFrame))
              (LineVisibleRangesWithStyle.lineNumber last)
       else None).
Proof.
  intros Hl. unfold previousFrameEdges.
  destruct previousFrame as [[|p ps]|]; simpl default;
    try (destruct (_ =? _); reflexivity).
  destruct lines as [|x rest]; [discriminate|].
  change (0 <? length (p :: ps))%nat with true.
  change (0 <? length (x :: rest))%nat with true. cbn [andb].
  rewrite Hl. reflexivity.
Qed.

(** What the [else if (previousFrameTop)] branch assigns, read against the
    entry found by the scan before the null-guard. *)
Lemma borrowed_corners (corner : EdgeStyle -> CornerStyle) found corners :
  match dropUnstyled found with
  | Some cached =>
      s ← deref (HorizontalRangeWithStyle.startStyle cached);
      e ← deref (HorizontalRangeWithStyle.endStyle cached);
      mret (corner s, corner e)
  | None => mret (EXTERN, EXTERN)
  end = Normal corners ->
  (Some corners.1, Some corners.2)
  = match found with
    | Some cached => lend corner cached
    | None => (Some EXTERN, Some EXTERN)
    end.
Proof.
  unfold dropUnstyled, lend. destruct found as [cached|].
  - destruct (HorizontalRangeWithStyle.startStyle cached) as [s|] eqn:Hs.
    + rewrite Hs. simpl.
      destruct (HorizontalRangeWithStyle.endStyle cached) as [e|]; simpl;
        [|discriminate].
      intros H. injection H as <-. reflexivity.
    + intros H. injection H as <-. reflexivity.
  - intros H. injection H as <-. reflexivity.
Qed.

Lemma topCorners_first eps pft (lines : list StyledLine) r :
  topCorners eps pft lines 0 r
  = match pft with
    | Some cached =>
        s ← deref (HorizontalRangeWithStyle.startStyle cached);
        e ← deref (HorizontalRangeWithStyle.endStyle cached);
        mret (IVisibleRangeEndPointStyle.top s, IVisibleRangeEndPointStyle.top e)
    | None => mret (EXTERN, EXTERN)
    end.
Proof. reflexivity. Qed.

Lemma bottomCorners_last eps pfb (lines : list StyledLine) len r :
  bottomCorners eps pfb lines len (len - 1) r
  = match pfb with
    | Some cached =>
        s ← deref (HorizontalRangeWithStyle.startStyle cached);
        e ← deref (HorizontalRangeWithStyle.endStyle cached);
        mret (IVisibleRangeEndPointStyle.bottom s, IVisibleRangeEndPointStyle.bottom e)
    | None => mret (EXTERN, EXTERN)
    end.
Proof.
  unfold bottomCorners.
  destruct (Nat.ltb_spec (len - 1 + 1) len) as [Hlt|_]; [lia | reflexivity].
Qed.

(** Away from the two boundary positions the previous frame is not read. *)
Lemma topCorners_no_cache eps pft (lines : list StyledLine) i r :
  (0 < i)%nat -> topCorners eps pft lines i r = topCorners eps None lines i r.
Proof.
  intros Hi. unfold topCorners.
  destruct (Nat.ltb_spec 0 i) as [_|Hle]; [reflexivity | lia].
Qed.

Lemma bottomCorners_no_cache eps pfb (lines : list StyledLine) len i r :
  (i + 1 < len)%nat ->
  bottomCorners eps pfb lines len i r = bottomCorners eps None lines len i r.
Proof.
  intros Hi. unfold bottomCorners.
  destruct (Nat.ltb_spec (i + 1) len) as [_|Hle]; [reflexivity | lia].
Qed.

Lemma lineStyles_no_cache eps pft pfb (lines : list StyledLine) len i styles :
  lineStyles eps pft pfb lines len i = Normal styles ->
  completes (lineStyles eps None None lines len i)
  /\ ((0 < i)%nat -> (i + 1 < len)%nat ->
      lineStyles eps None None lines len i = Normal styles).
Proof.
  unfold lineStyles. intros H.
  apply bind_Normal in H as (r & Hr & H). rewrite Hr. simpl.
  apply bind_Normal in H as (tops & Ht & H).
  apply bind_Normal in H as (bottoms & Hb & H). split.
  - assert (Ht0 : completes (topCorners eps None lines i r)).
    { destruct (Nat.ltb_spec 0 i) as [Hpos|Hz].
      - rewrite <- (topCorners_no_cache _ pft) by exact Hpos. eexists; exact Ht.
      - assert (i = 0)%nat as -> by lia. eexists; reflexivity. }
    assert (Hb0 : completes (bottomCorners eps None lines len i r)).
    { destruct (Nat.ltb_spec (i + 1) len) as [Hlt|Hge].
      - rewrite <- (bottomCorners_no_cache _ pfb) by exact Hlt. eexists; exact Hb.
      - unfold bottomCorners.
        destruct (Nat.ltb_spec (i + 1) len) as [Hlt|_]; [lia | eexists; reflexivity]. }
    destruct Ht0 as (t0 & ->), Hb0 as (b0 & ->). eexists; reflexivity.
  - intros Hpos Hlt.
    rewrite <- (topCorners_no_cache _ pft) by exact Hpos.
    rewrite <- (bottomCorners_no_cache _ pfb) by exact Hlt.
    rewrite Ht, Hb. exact H.
Qed.

(** C2. On a classified selection the previous frame decides the top
    corners of the first visible line exactly when that line is the
    viewport's start line, through the first line of the previous frame
    (scanning upwards in index) that has its number; it decides the bottom
    corners of the last visible line exactly when that line is the
    viewport's end line, through the first match scanning down from the
    end of the previous frame.  A first or last line with another number
    keeps EXTERN there, and no other corner depends on the previous frame:
    interior lines come out as they do without one. *)
Theorem boundary_borrow_gating this viewport (lines : list StyledLine) previousFrame out :
  _enrichVisibleRangesWithStyle this viewport lines previousFrame = Normal out ->
  let frame := default [] previousFrame in
  let lastIndex := (length lines - 1)%nat in
  (forall first, lines !! 0%nat = Some first ->
     let n := LineVisibleRangesWithStyle.lineNumber first in
     (n <> Range.startLineNumber viewport ->
      startTopAt out 0 = Some EXTERN /\ endTopAt out 0 = Some EXTERN)
     /\ (n = Range.startLineNumber viewport ->
         (forall l cached,
            firstMatching frame n = Some l ->
            LineVisibleRangesWithStyle.ranges l !! 0%nat = Some cached ->
            (startTopAt out 0, endTopAt out 0) = lend IVisibleRangeEndPointStyle.top cached)
         /\ (firstMatching frame n = None ->
             startTopAt out 0 = Some EXTERN /\ endTopAt out 0 = Some EXTERN)))
  /\ (forall last, lines !! lastIndex = Some last ->
        let n := LineVisibleRangesWithStyle.lineNumber last in
        (n <> Range.endLineNumber viewport ->
         startBottomAt out lastIndex = Some EXTERN /\ endBottomAt out lastIndex = Some EXTERN)
        /\ (n = Range.endLineNumber viewport ->
            (forall l cached,
               firstMatching (rev frame) n = Some l ->
               LineVisibleRangesWithStyle.ranges l !! 0%nat = Some cached ->
               (startBottomAt out lastIndex, endBottomAt out lastIndex)
               = lend IVisibleRangeEndPointStyle.bottom cached)
            /\ (firstMatching (rev frame) n = None ->
                startBottomAt out lastIndex = Some EXTERN
                /\ endBottomAt out lastIndex = Some EXTERN)))
  /\ exists out0,
       _enrichVisibleRangesWithStyle this viewport lines None = Normal out0
       /\ forall i,
            ((0 < i)%nat ->
             startTopAt out i = startTopAt out0 i /\ endTopAt out i = endTopAt out0 i)
            /\ ((i < lastIndex)%nat ->
                startBottomAt out i = startBottomAt out0 i
                /\ endBottomAt out i = endBottomAt out0 i)
            /\ ((0 < i < lastIndex)%nat -> out !! i = out0 !! i).
Proof.
  intros H. cbv zeta. split; [|split].
  - (* the first visible line *)
    intros first Hf.
    destruct (enrich_has_range _ _ _ _ _ _ _ H Hf) as (r & Hr).
    destruct (enrich_corners _ _ _ _ _ _ _ H Hr) as (tops & bottoms & Ht & _ & Hst & Het & _).
    rewrite topCorners_first, (previousFrameEdges_top _ _ _ _ Hf) in Ht.
    apply borrowed_corners in Ht. rewrite Hst, Het.
    destruct (Z.eqb_spec (LineVisibleRangesWithStyle.lineNumber first)
                (Range.startLineNumber viewport)) as [Heq|Hne].
    + split; [intros Hne; contradiction|]. intros _. split.
      * intros l cached Hfind Hcached.
        rewrite (scanFrame_firstMatching _ _ _ _ Hfind Hcached) in Ht. exact Ht.
      * intros Hnone. rewrite (scanFrame_no_match _ _ Hnone) in Ht.
        injection Ht as -> ->. split; reflexivity.
    + split; [|intros Heq; contradiction]. intros _.
      injection Ht as -> ->. split; reflexivity.
  - (* the last visible line *)
    intros last Hl.
    destruct (enrich_has_range _ _ _ _ _ _ _ H Hl) as (r & Hr).
    destruct (enrich_corners _ _ _ _ _ _ _ H Hr) as (tops & bottoms & _ & Hb & _ & _ & Hsb & Heb).
    rewrite bottomCorners_last, (previousFrameEdges_bottom _ _ _ _ Hl) in Hb.
    apply borrowed_corners in Hb. rewrite Hsb, Heb.
    destruct (Z.eqb_spec (LineVisibleRangesWithStyle.lineNumber last)
                (Range.endLineNumber viewport)) as [Heq|Hne].
    + split; [intros Hne; contradiction|]. intros _. split.
      * intros l cached Hfind Hcached.
        rewrite (scanFrame_firstMatching _ _ _ _ Hfind Hcached) in Hb. exact Hb.
      * intros Hnone. rewrite (scanFrame_no_match _ _ Hnone) in Hb.
        injection Hb as -> ->. split; reflexivity.
    + split; [|intros Heq; contradiction]. intros _.
      injection Hb as -> ->. split; reflexivity.
  - (* every other corner *)
    destruct (enrich_Normal _ _ _ _ _ H) as (Hlen & _ & Hin). cbv zeta in Hin.
    assert (Hrun : completes (_enrichVisibleRangesWithStyle this viewport lines None)).
    { unfold _enrichVisibleRangesWithStyle. cbv zeta. simpl.
      apply enrichLoop_completes. intros j Hj.
      destruct (lookup_lt_is_Some_2 lines j) as (l & Hl); [lia|].
      destruct (Hin j l Hl) as (styles & Hs & _).
      exact (proj1 (lineStyles_no_cache _ _ _ _ _ _ _ Hs)). }
    destruct Hrun as (out0 & H0). exists out0. split; [exact H0|].
    destruct (enrich_Normal _ _ _ _ _ H0) as (Hlen0 & _ & Hin0). cbv zeta in Hin0.
    assert (Hnone : forall (edge : StyledRange -> option EdgeStyle) corner i,
               lines !! i = None ->
               cornerAt edge corner out i = cornerAt edge corner out0 i).
    { intros edge corner i Hi. apply lookup_ge_None in Hi.
      unfold cornerAt, rangeAt.
      rewrite (proj2 (lookup_ge_None out i)), (proj2 (lookup_ge_None out0 i)) by lia.
      reflexivity. }
    intros i. split; [|split].
    + intros Hpos. destruct (lines !! i) as [l|] eqn:Hl;
        [|split; apply Hnone; exact Hl].
      destruct (enrich_has_range _ _ _ _ _ _ _ H Hl) as (r & Hr).
      destruct (enrich_corners _ _ _ _ _ _ _ H Hr) as (t & b & Ht & _ & -> & -> & _).
      destruct (enrich_corners _ _ _ _ _ _ _ H0 Hr) as (t0 & b0 & Ht0 & _ & -> & -> & _).
      rewrite topCorners_no_cache in Ht by exact Hpos.
      rewrite (topCorners_no_cache _ _ _ _ _ Hpos), Ht in Ht0.
      injection Ht0 as <-. split; reflexivity.
    + intros Hlt. destruct (lines !! i) as [l|] eqn:Hl;
        [|split; apply Hnone; exact Hl].
      destruct (enrich_has_range _ _ _ _ _ _ _ H Hl) as (r & Hr).
      destruct (enrich_corners _ _ _ _ _ _ _ H Hr) as (t & b & _ & Hb & _ & _ & -> & ->).
      destruct (enrich_corners _ _ _ _ _ _ _ H0 Hr) as (t0 & b0 & _ & Hb0 & _ & _ & -> & ->).
      rewrite bottomCorners_no_cache in Hb by lia.
      rewrite bottomCorners_no_cache, Hb in Hb0 by lia.
      injection Hb0 as <-. split; reflexivity.
    + intros [Hpos Hlt]. destruct (lines !! i) as [l|] eqn:Hl.
      * destruct (Hin i l Hl) as (styles & Hs & ->).
        destruct (Hin0 i l Hl) as (styles0 & Hs0 & ->).
        apply lineStyles_no_cache in Hs as [_ Hs].
        simpl in Hs0. rewrite Hs in Hs0 by lia. injection Hs0 as <-. reflexivity.
      * apply lookup_ge_None in Hl.
        rewrite (proj2 (lookup_ge_None out i)), (proj2 (lookup_ge_None out0 i)) by lia.
        reflexivity.
Qed.

Lemma boundary_borrow_gating_witness :
  _enrichVisibleRangesWithStyle scenarioThis lastLineViewport lastLineOnly
    (Some scenarioClassified) = Normal lastLineBorrowed
  /\ (startTopAt lastLineBorrowed 0, endTopAt lastLineBorrowed 0)
     = (Some FLAT, Some INTERN).
Proof.
  assert (Hrun : _enrichVisibleRangesWithStyle scenarioThis lastLineViewport lastLineOnly
                   (Some scenarioClassified) = Normal lastLineBorrowed)
    by (vm_compute; reflexivity).
  split; [exact Hrun|].
  destruct (boundary_borrow_gating scenarioThis lastLineViewport lastLineOnly
              (Some scenarioClassified) lastLineBorrowed Hrun) as (Htop & _).
  destruct (Htop (scenarioLine 7 0 30) eq_refl) as (_ & Hborrow).
  destruct (Hborrow eq_refl) as (Hfound & _).
  exact (Hfound _ _ eq_refl eq_refl).
Defined.

(** ** Render preparation *)

Lemma scenario_entry_point :
  _getVisibleRangesWithStyle scenarioThis (Range.mk 5 1 7 4) scenarioCtx None
  = Normal scenarioClassified.
Proof. vm_compute. reflexivity. Qed.

Lemma actualRenderOneSelection_no_output output2 visibleStartLineNumber
    hasMultipleSelections visibleRanges :
  _actualRenderOneSelection output2 visibleStartLineNumber hasMultipleSelections
    visibleRanges = output2.
Proof. reflexivity. Qed.

(** [prepareRender] registers at most one rectangle per selection. *)
Lemma prepareRender_length {ViewLineOptions ViewportData : Type} isEmpty
    (canRender : ViewLineOptions -> ViewportData -> Z -> bool) options this ctx :
  (length (prepareRender isEmpty canRender options this ctx)
   <= length (_selections this))%nat.
Proof.
  unfold prepareRender.
  enough (forall sels acc,
            (length (foldl
               (fun _gpuShapes selection =>
                  if isEmpty selection then _gpuShapes
                  else if canRender options (viewportData ctx)
                            (Range.startLineNumber selection) then
                    _gpuShapes ++
                      [RectangleRendererEntry.mk
                         (inject_Z (Range.startColumn selection) * 10)%Q
                         (inject_Z (Range.startLineNumber selection) * 10)%Q
                         100 10 1 0 0 1]
                  else _gpuShapes) acc sels)
             <= length acc + length sels)%nat) as H by exact (H _ []).
  induction sels as [|sel rest IH]; intros acc; simpl; [lia|].
  destruct (isEmpty sel); [etransitivity; [apply IH|]; lia|].
  destruct (canRender options (viewportData ctx) (Range.startLineNumber sel));
    (etransitivity; [apply IH|]); rewrite ?length_app; simpl; lia.
Qed.


(** ** The scan on frames this file produces *)

Lemma toStyled_noStyle (geom : list LineVisibleRanges.t) :
  everyRange noStyle (toStyled <$> geom).
Proof.
  unfold everyRange. apply Forall_fmap, Forall_forall. intros l _. simpl.
  apply Forall_fmap, Forall_forall. intros item _. split; reflexivity.
Qed.

(** A frame returned by the entry point is either classified, and then
    every line of it holds a range, or untouched, and then no range of it
    has a style. *)
Lemma getVisibleRanges_frame_shape {ViewportData : Type}
    this selection (ctx : RenderingContext ViewportData) previousFrame out :
  _getVisibleRangesWithStyle this selection ctx previousFrame = Normal out ->
  Forall hasRange out \/ everyRange noStyle out.
Proof.
  unfold _getVisibleRangesWithStyle. cbv zeta. destruct (negb _ && _).
  - intros H. left. apply Forall_lookup. intros i x Hx.
    destruct (enrich_Normal _ _ _ _ _ H) as (Hlen & _ & Hin). cbv zeta in Hin.
    destruct (lookup_lt_is_Some_2 (toStyled <$> default [] (linesVisibleRangesForRange ctx selection true)) i)
      as (l & Hl).
    { rewrite <- Hlen. eapply lookup_lt_Some. exact Hx. }
    destruct (enrich_has_range _ _ _ _ _ _ _ H Hl) as (r & Hr).
    destruct (Hin i l Hl) as (styles & _ & Ho). rewrite Ho in Hx. injection Hx as <-.
    unfold rangeAt in Hr. rewrite Hl in Hr. simpl in Hr.
    unfold hasRange. intros Hempty.
    pose proof (rangeAt_styleLine styles l r Hr) as Hs. rewrite Hempty in Hs.
    discriminate.
  - intros H. injection H as <-. right. apply toStyled_noStyle.
Qed.

(** On such a frame the scan of the code and the first-match reading of
    the specification lend the same entry. *)
Lemma scan_first_match (frame : list StyledLine) n :
  Forall hasRange frame \/ everyRange noStyle frame ->
  dropUnstyled (scanFrame frame n) = dropUnstyled (firstMatchingRange frame n).
Proof.
  unfold firstMatchingRange, firstMatching. intros [Hr|Hn].
  - f_equal. induction Hr as [|l rest Hl _ IH]; simpl; [reflexivity|].
    destruct (LineVisibleRangesWithStyle.lineNumber l =? n); [|exact IH].
    simpl. unfold hasRange in Hl.
    destruct (LineVisibleRangesWithStyle.ranges l) as [|r rs]; [congruence|].
    reflexivity.
  - assert (Hnone : forall found,
              (forall r, found = Some r -> noStyle r) -> dropUnstyled found = None).
    { intros [r|] Hf; [|reflexivity]. unfold dropUnstyled.
      destruct (Hf r eq_refl) as [-> _]. reflexivity. }
    unfold everyRange in Hn. rewrite Forall_forall in Hn.
    rewrite !Hnone; [reflexivity | |].
    + intros r Hfound.
      destruct (List.find _ frame) as [l|] eqn:Hfind; [simpl in Hfound | discriminate].
      apply find_some in Hfind as [Hin _]. apply list_elem_of_In in Hin.
      specialize (Hn l Hin). rewrite Forall_lookup in Hn. exact (Hn _ _ Hfound).
    + intros r Hscan. apply scanFrame_Some in Hscan as (l & Hin & _ & Hl).
      specialize (Hn l Hin). rewrite Forall_lookup in Hn. exact (Hn _ _ Hl).
Qed.

(** Outside such frames the two differ: a matching line without a range
    does not end the scan. *)
Example scan_passes_line_without_range :
  let styled := HorizontalRangeWithStyle.mk 0 30
                  (Some (IVisibleRangeEndPointStyle.mk FLAT EXTERN))
                  (Some (IVisibleRangeEndPointStyle.mk INTERN EXTERN)) in
  let frame := [LineVisibleRangesWithStyle.mk 7 [];
                LineVisibleRangesWithStyle.mk 7 [styled]] in
  scanFrame frame 7 = Some styled /\ firstMatchingRange frame 7 = None.
Proof. split; reflexivity. Qed.

(** * Further properties *)

(** ** The gap check *)

(** X1. The gap check answers true exactly when some line holds two ranges
    or more, and false exactly when every line holds at most one; a line
    without any range is no gap. *)
Theorem gap_check_iff (lines : list StyledLine) :
  (_visibleRangesHaveGaps lines = true
   <-> exists i l, lines !! i = Some l
                   /\ (2 <= length (LineVisibleRangesWithStyle.ranges l))%nat)
  /\ (_visibleRangesHaveGaps lines = false
      <-> forall i l, lines !! i = Some l
                      -> (length (LineVisibleRangesWithStyle.ranges l) <= 1)%nat).
Proof.
  split.
  - rewrite visibleRangesHaveGaps_true, Exists_exists. split.
    + intros (l & Hin & Hl). apply list_elem_of_lookup in Hin as (i & Hi).
      exists i, l. split; assumption.
    + intros (i & l & Hi & Hl). exists l. split; [|exact Hl].
      apply list_elem_of_lookup. exists i. exact Hi.
  - rewrite visibleRangesHaveGaps_false. apply Forall_lookup.
Qed.

(** ** [abs] *)

Lemma SFcompare_refl_finite s m e :
  SFcompare (S754_finite s m e) (S754_finite s m e) = Some Eq.
Proof.
  simpl. rewrite Z.compare_refl.
  change (Pos.compare_cont Eq m m) with (Pos.compare m m).
  rewrite Pos.compare_refl. destruct s; reflexivity.
Qed.

(** X2. [abs] on every double, NaN, the infinities and the two zeros
    included ([a =? a] is false exactly on NaN).  The result is never
    below zero, and it is at least zero, at least [a] and at least [-a]
    unless [a] is NaN; it is a zero exactly when [a] is; and [abs(a - b)]
    equals [abs(b - a)] unless the difference is NaN, so that the two pass
    the same tests [< e]. *)
Theorem abs_properties (a b e : float) :
  (abs a <? 0)%float = false
  /\ (0 <=? abs a)%float = (a =? a)%float
  /\ (abs a =? 0)%float = (a =? 0)%float
  /\ (a <=? abs a)%float = (a =? a)%float
  /\ (- a <=? abs a)%float = (a =? a)%float
  /\ (abs (a - b) =? abs (b - a))%float = (a - b =? a - b)%float
  /\ (abs (a - b) <? e)%float = (abs (b - a) <? e)%float.
Proof.
  rewrite !ltb_spec, !leb_spec, !FloatAxioms.eqb_spec, !abs_Prim2SF, opp_spec, !sub_spec.
  change (Prim2SF 0) with (S754_zero false).
  split; [|split; [|split; [|split; [|split; [|split]]]]].
  - destruct (Prim2SF a) as [s|s| |s m x]; reflexivity.
  - unfold SFleb, SFeqb. destruct (Prim2SF a) as [s|s| |s m x];
      rewrite ?SFcompare_refl_finite; try reflexivity; destruct s; reflexivity.
  - destruct (Prim2SF a) as [s|s| |s m x]; try reflexivity; destruct s; reflexivity.
  - unfold SFleb, SFeqb. destruct (Prim2SF a) as [s|s| |s m x]; try reflexivity;
      destruct s; simpl SFmag; rewrite ?SFcompare_refl_finite; reflexivity.
  - unfold SFleb, SFeqb. destruct (Prim2SF a) as [s|s| |s m x]; try reflexivity;
      destruct s; simpl SFopp; simpl SFmag; rewrite ?SFcompare_refl_finite; reflexivity.
  - pose proof (SFsub_antisym prec emax (Prim2SF a) (Prim2SF b)) as Hopp.
    unfold SF64sub, SFeqb.
    destruct (SFsub prec emax (Prim2SF a) (Prim2SF b)) as [s|s| |s m x],
             (SFsub prec emax (Prim2SF b) (Prim2SF a)) as [s'|s'| |s' m' x'];
      simpl in Hopp; try contradiction; try reflexivity.
    + destruct s; reflexivity.
    + destruct Hopp as (_ & -> & ->). simpl SFmag.
      rewrite !SFcompare_refl_finite. reflexivity.
  - apply SFltb_mag_opposite, SFsub_antisym.
Qed.

(** ** What the classifier keeps and what it sets *)

(** X3. A completed run of the classifier keeps the number of lines, every
    line number, the number of ranges on every line and the [left] and
    [width] of every range; the ranges after the first of a line are left
    as they were, styles included. *)
Theorem enrich_preserves_geometry this viewport (lines : list StyledLine)
    previousFrame out :
  _enrichVisibleRangesWithStyle this viewport lines previousFrame = Normal out ->
  length out = length lines
  /\ forall i l, lines !! i = Some l ->
       exists l',
         out !! i = Some l'
         /\ LineVisibleRangesWithStyle.lineNumber l' = LineVisibleRangesWithStyle.lineNumber l
         /\ length (LineVisibleRangesWithStyle.ranges l')
            = length (LineVisibleRangesWithStyle.ranges l)
         /\ forall j r, LineVisibleRangesWithStyle.ranges l !! j = Some r ->
              exists r',
                LineVisibleRangesWithStyle.ranges l' !! j = Some r'
                /\ HorizontalRangeWithStyle.left r' = HorizontalRangeWithStyle.left r
                /\ HorizontalRangeWithStyle.width r' = HorizontalRangeWithStyle.width r
                /\ ((0 < j)%nat -> r' = r).
Proof.
  intros H. destruct (enrich_Normal _ _ _ _ _ H) as (Hlen & _ & Hin). cbv zeta in Hin.
  split; [exact Hlen|]. intros i l Hl.
  destruct (Hin i l Hl) as (styles & _ & Ho).
  exists (styleLine styles l). split; [exact Ho|]. split; [reflexivity|].
  unfold styleLine; simpl. split; [apply length_alter|].
  intros j r Hr. destruct j as [|j].
  - exists (withStyles styles r). rewrite list_lookup_alter_eq, Hr.
    repeat split. intros Hj. lia.
  - exists r. rewrite list_lookup_alter_ne by lia. repeat split. exact Hr.
Qed.

Lemma enrich_preserves_geometry_witness :
  _enrichVisibleRangesWithStyle scenarioThis scenarioViewport scenarioLines None
  = Normal scenarioClassified
  /\ length scenarioClassified = length scenarioLines.
Proof.
  assert (Hrun : _enrichVisibleRangesWithStyle scenarioThis scenarioViewport
                   scenarioLines None = Normal scenarioClassified)
    by (vm_compute; reflexivity).
  split; [exact Hrun|].
  exact (proj1 (enrich_preserves_geometry scenarioThis scenarioViewport scenarioLines
                  None scenarioClassified Hrun)).
Defined.

(** X4. After a completed run every line has a first range, and that range
    has both its [startStyle] and its [endStyle] set. *)
Theorem enrich_styles_every_line this viewport (lines : list StyledLine)
    previousFrame out i :
  _enrichVisibleRangesWithStyle this viewport lines previousFrame = Normal out ->
  (i < length lines)%nat ->
  exists r, rangeAt out i = Some r /\ fullyStyled r.
Proof.
  intros H Hi. destruct (lookup_lt_is_Some_2 lines i Hi) as (l & Hl).
  destruct (enrich_has_range _ _ _ _ _ _ _ H Hl) as (r & Hr).
  destruct (enrich_rangeAt _ _ _ _ _ _ _ H Hr) as (tops & bottoms & _ & _ & Ho).
  eexists. split; [exact Ho|]. split; eexists; reflexivity.
Qed.

Lemma enrich_styles_every_line_witness :
  _enrichVisibleRangesWithStyle scenarioThis scenarioViewport scenarioLines None
  = Normal scenarioClassified
  /\ (1 < length scenarioLines)%nat
  /\ exists r, rangeAt scenarioClassified 1 = Some r /\ fullyStyled r.
Proof.
  assert (Hrun : _enrichVisibleRangesWithStyle scenarioThis scenarioViewport
                   scenarioLines None = Normal scenarioClassified)
    by (vm_compute; reflexivity).
  assert (Hi : (1 < length scenarioLines)%nat) by (simpl; lia).
  split; [exact Hrun|]. split; [exact Hi|].
  exact (enrich_styles_every_line scenarioThis scenarioViewport scenarioLines None
           scenarioClassified 1 Hrun Hi).
Defined.

(** ** When exactly the classifier throws *)

Lemma dropUnstyled_Some found r :
  dropUnstyled found = Some r ->
  found = Some r /\ is_Some (HorizontalRangeWithStyle.startStyle r).
Proof.
  unfold dropUnstyled. destruct found as [r'|]; [|discriminate].
  destruct (HorizontalRangeWithStyle.startStyle r') as [s|] eqn:Hs; [|discriminate].
  intros H. injection H as <-. split; [reflexivity|]. rewrite Hs. eexists; reflexivity.
Qed.

(** An entry that survives the null-guard has a [startStyle]; without lines
    nothing is borrowed. *)
Lemma previousFrameEdges_guarded viewport (lines : list StyledLine) previousFrame r :
  (previousFrameEdges viewport lines previousFrame).1 = Some r
  \/ (previousFrameEdges viewport lines previousFrame).2 = Some r ->
  is_Some (HorizontalRangeWithStyle.startStyle r) /\ lines <> [].
Proof.
  unfold previousFrameEdges. destruct previousFrame as [frame|];
    [|intros [H|H]; discriminate].
  destruct lines as [|first rest]; [rewrite andb_false_r; intros [H|H]; discriminate|].
  destruct (_ && _); [|intros [H|H]; discriminate].
  destruct ((first :: rest) !! 0%nat); [|intros [H|H]; discriminate].
  destruct ((first :: rest) !! _); [|intros [H|H]; discriminate].
  simpl. intros [H|H]; apply dropUnstyled_Some in H as [_ H]; split;
    solve [exact H | discriminate].
Qed.

(** X5. The classifier returns exactly when every line holds a range and
    every entry borrowed from the previous frame has an [endStyle];
    otherwise it throws. *)
Theorem enrich_completes_iff this viewport (lines : list StyledLine) previousFrame :
  completes (_enrichVisibleRangesWithStyle this viewport lines previousFrame)
  <-> Forall hasRange lines
      /\ forall cached,
           (previousFrameEdges viewport lines previousFrame).1 = Some cached
           \/ (previousFrameEdges viewport lines previousFrame).2 = Some cached ->
           is_Some (HorizontalRangeWithStyle.endStyle cached).
Proof.
  split.
  - intros (out & H).
    destruct (enrich_Normal _ _ _ _ _ H) as (_ & _ & Hin). cbv zeta in Hin.
    split.
    + apply Forall_lookup. intros i l Hl.
      destruct (enrich_has_range _ _ _ _ _ _ _ H Hl) as (r & Hr).
      unfold rangeAt in Hr. rewrite Hl in Hr. simpl in Hr. unfold hasRange.
      intros Hempty. rewrite Hempty in Hr. discriminate.
    + intros cached Hc.
      destruct (previousFrameEdges_guarded _ _ _ _ Hc) as [_ Hne].
      destruct Hc as [Hc|Hc].
      * destruct (lookup_lt_is_Some_2 lines 0) as (l & Hl).
        { destruct lines; [congruence | simpl; lia]. }
        destruct (Hin 0%nat l Hl) as (styles & Hs & _). unfold lineStyles in Hs.
        apply bind_Normal in Hs as (r & _ & Hs).
        apply bind_Normal in Hs as (tops & Ht & _).
        rewrite topCorners_first, Hc in Ht.
        apply bind_Normal in Ht as (s & _ & Ht).
        apply bind_Normal in Ht as (e & He & _).
        apply deref_Normal in He. rewrite He. eexists; reflexivity.
      * destruct (lookup_lt_is_Some_2 lines (length lines - 1)) as (l & Hl).
        { destruct lines; [congruence | simpl; lia]. }
        destruct (Hin _ l Hl) as (styles & Hs & _). unfold lineStyles in Hs.
        apply bind_Normal in Hs as (r & _ & Hs).
        apply bind_Normal in Hs as (tops & _ & Hs).
        apply bind_Normal in Hs as (bottoms & Hb & _).
        rewrite bottomCorners_last, Hc in Hb.
        apply bind_Normal in Hb as (s & _ & Hb).
        apply bind_Normal in Hb as (e & He & _).
        apply deref_Normal in He. rewrite He. eexists; reflexivity.
  - intros (Hr & Hend). unfold _enrichVisibleRangesWithStyle. cbv zeta.
    apply enrichLoop_completes. intros j Hj.
    apply lineStyles_completes; [apply hasRange_rangeAt, Hr | | | lia].
    + intros r Hc. split; [|apply Hend; left; exact Hc].
      apply (previousFrameEdges_guarded viewport lines previousFrame). left. exact Hc.
    + intros r Hc. split; [|apply Hend; right; exact Hc].
      apply (previousFrameEdges_guarded viewport lines previousFrame). right. exact Hc.
Qed.

(** ** What the entry point returns *)

Lemma toPlain_toStyled item : toPlain (toStyled item) = item.
Proof.
  destruct item as [n rs]. unfold toPlain, toStyled; simpl. f_equal.
  induction rs as [|[l w] rs IH]; [reflexivity|].
  rewrite !fmap_cons, IH. reflexivity.
Qed.

Lemma toPlain_geometry l : toPlain (geometry l) = toPlain l.
Proof.
  unfold toPlain, geometry; simpl. f_equal.
  rewrite <- list_fmap_compose. reflexivity.
Qed.

Lemma toPlain_same_geometry (a b : list StyledLine) :
  geometry <$> a = geometry <$> b -> toPlain <$> a = toPlain <$> b.
Proof.
  intros H. apply (f_equal (fmap toPlain)) in H.
  rewrite <- !list_fmap_compose in H.
  rewrite (list_fmap_ext (toPlain ∘ geometry) toPlain a) in H
    by (intros; apply toPlain_geometry).
  rewrite (list_fmap_ext (toPlain ∘ geometry) toPlain b) in H
    by (intros; apply toPlain_geometry).
  exact H.
Qed.

(** X6. Whatever the entry point returns, dropping the styles gives back
    the answer of the geometry query: the same lines in the same order,
    with the same ranges. *)
Theorem getVisibleRanges_round_trip {ViewportData : Type}
    this selection (ctx : RenderingContext ViewportData) previousFrame out :
  _getVisibleRangesWithStyle this selection ctx previousFrame = Normal out ->
  toPlain <$> out = visibleLines ctx selection.
Proof.
  unfold _getVisibleRangesWithStyle. cbv zeta. fold (visibleLines ctx selection).
  assert (Hplain : toPlain <$> (toStyled <$> visibleLines ctx selection)
                   = visibleLines ctx selection).
  { rewrite <- list_fmap_compose.
    rewrite <- (list_fmap_id (visibleLines ctx selection)) at 2.
    apply list_fmap_ext. intros i x _. apply toPlain_toStyled. }
  destruct (negb _ && _).
  - intros H. destruct (enrich_Normal _ _ _ _ _ H) as (_ & Hgeo & _).
    rewrite (toPlain_same_geometry _ _ Hgeo). exact Hplain.
  - intros H. injection H as <-. exact Hplain.
Qed.

Lemma getVisibleRanges_round_trip_witness :
  _getVisibleRangesWithStyle scenarioThis (Range.mk 5 1 7 4) scenarioCtx None
  = Normal scenarioClassified
  /\ toPlain <$> scenarioClassified = scenarioGeometry.
Proof.
  assert (Hrun : _getVisibleRangesWithStyle scenarioThis (Range.mk 5 1 7 4) scenarioCtx None
                 = Normal scenarioClassified)
    by (vm_compute; reflexivity).
  split; [exact Hrun|].
  exact (getVisibleRanges_round_trip scenarioThis (Range.mk 5 1 7 4) scenarioCtx None
           scenarioClassified Hrun).
Defined.

(** X7. The entry point styles all or nothing: in what it returns either
    no range has a style, or every line holds exactly one range and that
    range has both styles.  A consumer that tests the first range of the
    first line knows the state of all. *)
Theorem getVisibleRanges_all_or_nothing {ViewportData : Type}
    this selection (ctx : RenderingContext ViewportData) previousFrame out :
  _getVisibleRangesWithStyle this selection ctx previousFrame = Normal out ->
  everyRange noStyle out \/ Forall singleStyledRange out.
Proof.
  unfold _getVisibleRangesWithStyle. cbv zeta. fold (visibleLines ctx selection).
  destruct (_visibleRangesHaveGaps (toStyled <$> visibleLines ctx selection)) eqn:Hgap;
    simpl; [intros H; injection H as <-; left; apply toStyled_noStyle|].
  destruct (_roundedSelection this);
    [|intros H; injection H as <-; left; apply toStyled_noStyle].
  intros H. right. apply visibleRangesHaveGaps_false in Hgap.
  destruct (enrich_Normal _ _ _ _ _ H) as (Hlen & _ & Hin). cbv zeta in Hin.
  apply Forall_lookup. intros i x Hx.
  destruct (lookup_lt_is_Some_2 (toStyled <$> visibleLines ctx selection) i) as (l & Hl).
  { rewrite <- Hlen. eapply lookup_lt_Some. exact Hx. }
  destruct (enrich_has_range _ _ _ _ _ _ _ H Hl) as (r & Hr).
  destruct (Hin i l Hl) as (styles & _ & Ho). rewrite Ho in Hx. injection Hx as <-.
  pose proof (proj1 (Forall_lookup _ _) Hgap i l Hl) as Hone. simpl in Hone.
  unfold rangeAt in Hr. rewrite Hl in Hr. simpl in Hr.
  destruct (LineVisibleRangesWithStyle.ranges l) as [|r0 [|r1 rs]] eqn:Hrs;
    [discriminate | | simpl in Hone; lia].
  injection Hr as ->. exists (withStyles styles r).
  split; [unfold styleLine; simpl; rewrite Hrs; reflexivity|].
  split; eexists; reflexivity.
Qed.

Lemma getVisibleRanges_all_or_nothing_witness :
  _getVisibleRangesWithStyle scenarioThis (Range.mk 5 1 7 4) scenarioCtx None
  = Normal scenarioClassified
  /\ (everyRange noStyle scenarioClassified \/ Forall singleStyledRange scenarioClassified).
Proof.
  assert (Hrun : _getVisibleRangesWithStyle scenarioThis (Range.mk 5 1 7 4) scenarioCtx None
                 = Normal scenarioClassified)
    by (vm_compute; reflexivity).
  split; [exact Hrun|].
  exact (getVisibleRanges_all_or_nothing scenarioThis (Range.mk 5 1 7 4) scenarioCtx None
           scenarioClassified Hrun).
Defined.

(** ** The four corners at the boundary of two lines *)

(** The corners the loop assigns on the two sides of the boundary between
    line [i] and line [i + 1]. *)
Lemma boundary_corners this viewport (lines : list StyledLine) previousFrame out
    i upper lower :
  _enrichVisibleRangesWithStyle this viewport lines previousFrame = Normal out ->
  rangeAt lines i = Some upper ->
  rangeAt lines (S i) = Some lower ->
  let eps := epsilonOf this in
  let lu := HorizontalRangeWithStyle.left upper in
  let ll := HorizontalRangeWithStyle.left lower in
  let ru := rightOf upper in
  let rl := rightOf lower in
  startBottomAt out i
  = Some (if (abs (lu - ll) <? eps)%float then FLAT
          else if (ll <? lu)%float && (lu <? rl)%float then INTERN else EXTERN)
  /\ endBottomAt out i
     = Some (if (abs (ru - rl) <? eps)%float then FLAT
             else if (ru <? rl)%float then INTERN else EXTERN)
  /\ startTopAt out (S i)
     = Some (if (abs (ll - lu) <? eps)%float then FLAT
             else if (lu <? ll)%float then INTERN else EXTERN)
  /\ endTopAt out (S i)
     = Some (if (abs (rl - ru) <? eps)%float then FLAT
             else if (lu <? rl)%float && (rl <? ru)%float then INTERN else EXTERN).
Proof.
  intros H Hu Hl. cbv zeta.
  destruct (enrich_corners _ _ _ _ _ _ _ H Hu)
    as (tu & bu & _ & Hbu & _ & _ & -> & ->).
  destruct (enrich_corners _ _ _ _ _ _ _ H Hl)
    as (tl & bl & Htl & _ & -> & -> & _ & _).
  rewrite (bottomCorners_above _ _ _ _ _ _ Hl) in Hbu. injection Hbu as <-.
  rewrite (topCorners_below _ _ _ _ _ _ Hu) in Htl. injection Htl as <-.
  repeat split.
Qed.

(** Case analysis on every comparison of a goal; two comparisons that hold
    in opposite directions contradict each other. *)
Ltac compare_offsets :=
  repeat match goal with
    | |- context [(?a <? ?b)%float] =>
        let E := fresh "E" in destruct (a <? b)%float eqn:E
    end;
  cbn [andb]; repeat split; intros;
  repeat match goal with H : _ /\ _ |- _ => destruct H end;
  try congruence;
  try match goal with
    | E1 : (?a <? ?b)%float = true, E2 : (?b <? ?a)%float = true |- _ =>
        rewrite (ltb_asym _ _ E1) in E2; discriminate E2
    end.

(** X8. Between two adjacent classified lines each of the four corners at
    their common boundary is FLAT exactly when the two offsets it compares
    pass the test [abs(a - b) < epsilon], computed in doubles; the order in
    which the two offsets are subtracted makes no difference, so the two
    corners of an edge are FLAT together.  A FLAT corner between finite
    offsets is sound: the offsets are then less than epsilon apart as real
    numbers. *)
Theorem flat_iff_within_epsilon this viewport (lines : list StyledLine) previousFrame
    out i upper lower :
  _enrichVisibleRangesWithStyle this viewport lines previousFrame = Normal out ->
  rangeAt lines i = Some upper ->
  rangeAt lines (S i) = Some lower ->
  let eps := epsilonOf this in
  let lu := HorizontalRangeWithStyle.left upper in
  let ll := HorizontalRangeWithStyle.left lower in
  let ru := rightOf upper in
  let rl := rightOf lower in
  (startBottomAt out i = Some FLAT <-> (abs (lu - ll) <? eps)%float = true)
  /\ (startTopAt out (S i) = Some FLAT <-> (abs (lu - ll) <? eps)%float = true)
  /\ (endBottomAt out i = Some FLAT <-> (abs (ru - rl) <? eps)%float = true)
  /\ (endTopAt out (S i) = Some FLAT <-> (abs (ru - rl) <? eps)%float = true)
  /\ (isFinite eps = true -> isFinite lu = true -> isFinite ll = true ->
      startBottomAt out i = Some FLAT ->
      (Qabs (exactValue lu - exactValue ll) < exactValue eps)%Q)
  /\ (isFinite eps = true -> isFinite ru = true -> isFinite rl = true ->
      endBottomAt out i = Some FLAT ->
      (Qabs (exactValue ru - exactValue rl) < exactValue eps)%Q).
Proof.
  intros H Hu Hl. cbv zeta.
  destruct (boundary_corners _ _ _ _ _ _ _ _ H Hu Hl) as (-> & -> & -> & ->).
  rewrite (abs_sub_sym (HorizontalRangeWithStyle.left lower)
             (HorizontalRangeWithStyle.left upper)).
  rewrite (abs_sub_sym (rightOf lower) (rightOf upper)).
  assert (Hsound : forall a b,
            isFinite (epsilonOf this) = true -> isFinite a = true -> isFinite b = true ->
            (abs (a - b) <? epsilonOf this)%float = true ->
            (Qabs (exactValue a - exactValue b) < exactValue (epsilonOf this))%Q).
  { intros a b Fe Fa Fb Htest.
    destruct (Qlt_le_dec (Qabs (exactValue a - exactValue b))
                         (exactValue (epsilonOf this))) as [Hok|Hfar]; [exact Hok|].
    rewrite (abs_sub_exact a b _ Fa Fb Fe Hfar) in Htest. discriminate. }
  split; [|split; [|split; [|split; [|split]]]]; try solve [compare_offsets].
  - intros Fe Fa Fb Hflat. apply Hsound; try assumption.
    destruct (abs _ <? _)%float; [reflexivity|].
    destruct (_ && _); discriminate.
  - intros Fe Fa Fb Hflat. apply Hsound; try assumption.
    destruct (abs _ <? _)%float; [reflexivity|].
    destruct (_ <? _)%float; discriminate.
Qed.

Lemma flat_iff_within_epsilon_witness :
  _enrichVisibleRangesWithStyle scenarioThis scenarioViewport scenarioLines None
  = Normal scenarioClassified
  /\ (startTopAt scenarioClassified 2 = Some FLAT
      <-> (abs (HorizontalRangeWithStyle.left (scenarioRange 0 80)
                - HorizontalRangeWithStyle.left (scenarioRange 0 30))
           <? epsilonOf scenarioThis)%float = true).
Proof.
  assert (Hrun : _enrichVisibleRangesWithStyle scenarioThis scenarioViewport
                   scenarioLines None = Normal scenarioClassified)
    by (vm_compute; reflexivity).
  split; [exact Hrun|].
  exact (proj1 (proj2 (flat_iff_within_epsilon scenarioThis scenarioViewport scenarioLines
                         None scenarioClassified 1 (scenarioRange 0 80) (scenarioRange 0 30)
                         Hrun eq_refl eq_refl))).
Defined.

(** X9. Between two adjacent classified lines, at a corner whose test
    [abs(a - b) < epsilon] fails: the lower line's [startStyle.top] is
    INTERN exactly when it starts right of the upper line's start; its
    [endStyle.top] exactly when it ends strictly inside the upper range;
    the upper line's [startStyle.bottom] exactly when it starts strictly
    inside the lower range; its [endStyle.bottom] exactly when it ends left
    of the lower line's end.  A corner whose test holds is not INTERN.
    All comparisons are those of doubles. *)
Theorem intern_iff_rules this viewport (lines : list StyledLine) previousFrame
    out i upper lower :
  _enrichVisibleRangesWithStyle this viewport lines previousFrame = Normal out ->
  rangeAt lines i = Some upper ->
  rangeAt lines (S i) = Some lower ->
  let eps := epsilonOf this in
  let lu := HorizontalRangeWithStyle.left upper in
  let ll := HorizontalRangeWithStyle.left lower in
  let ru := rightOf upper in
  let rl := rightOf lower in
  (startTopAt out (S i) = Some INTERN
   <-> (abs (ll - lu) <? eps)%float = false /\ (lu <? ll)%float = true)
  /\ (endTopAt out (S i) = Some INTERN
      <-> (abs (rl - ru) <? eps)%float = false
          /\ (lu <? rl)%float = true /\ (rl <? ru)%float = true)
  /\ (startBottomAt out i = Some INTERN
      <-> (abs (lu - ll) <? eps)%float = false
          /\ (ll <? lu)%float = true /\ (lu <? rl)%float = true)
  /\ (endBottomAt out i = Some INTERN
      <-> (abs (ru - rl) <? eps)%float = false /\ (ru <? rl)%float = true).
Proof.
  intros H Hu Hl. cbv zeta.
  destruct (boundary_corners _ _ _ _ _ _ _ _ H Hu Hl) as (-> & -> & -> & ->).
  split; [|split; [|split]]; compare_offsets.
Qed.

Lemma intern_iff_rules_witness :
  _enrichVisibleRangesWithStyle scenarioThis scenarioViewport scenarioLines None
  = Normal scenarioClassified
  /\ (endTopAt scenarioClassified 2 = Some INTERN
      <-> (abs (rightOf (scenarioRange 0 30) - rightOf (scenarioRange 0 80))
           <? epsilonOf scenarioThis)%float = false
          /\ (HorizontalRangeWithStyle.left (scenarioRange 0 80)
              <? rightOf (scenarioRange 0 30))%float = true
          /\ (rightOf (scenarioRange 0 30) <? rightOf (scenarioRange 0 80))%float = true).
Proof.
  assert (Hrun : _enrichVisibleRangesWithStyle scenarioThis scenarioViewport
                   scenarioLines None = Normal scenarioClassified)
    by (vm_compute; reflexivity).
  split; [exact Hrun|].
  exact (proj1 (proj2 (intern_iff_rules scenarioThis scenarioViewport scenarioLines
                         None scenarioClassified 1 (scenarioRange 0 80) (scenarioRange 0 30)
                         Hrun eq_refl eq_refl))).
Defined.

(** X10. A boundary is notched on one side at most: the upper line's
    [startStyle.bottom] and the lower line's [startStyle.top] are never
    both INTERN, and neither are the upper line's [endStyle.bottom] and the
    lower line's [endStyle.top]. *)
Theorem intern_on_one_side_only this viewport (lines : list StyledLine) previousFrame
    out i upper lower :
  _enrichVisibleRangesWithStyle this viewport lines previousFrame = Normal out ->
  rangeAt lines i = Some upper ->
  rangeAt lines (S i) = Some lower ->
  ~ (startBottomAt out i = Some INTERN /\ startTopAt out (S i) = Some INTERN)
  /\ ~ (endBottomAt out i = Some INTERN /\ endTopAt out (S i) = Some INTERN).
Proof.
  intros H Hu Hl.
  destruct (boundary_corners _ _ _ _ _ _ _ _ H Hu Hl) as (-> & -> & -> & ->).
  split; intros [H1 H2]; revert H1 H2; compare_offsets.
Qed.

Lemma intern_on_one_side_only_witness :
  _enrichVisibleRangesWithStyle scenarioThis scenarioViewport scenarioLines None
  = Normal scenarioClassified
  /\ ~ (startBottomAt scenarioClassified 0 = Some INTERN
        /\ startTopAt scenarioClassified 1 = Some INTERN).
Proof.
  assert (Hrun : _enrichVisibleRangesWithStyle scenarioThis scenarioViewport
                   scenarioLines None = Normal scenarioClassified)
    by (vm_compute; reflexivity).
  split; [exact Hrun|].
  exact (proj1 (intern_on_one_side_only scenarioThis scenarioViewport scenarioLines
                  None scenarioClassified 0 (scenarioRange 10 50) (scenarioRange 0 80)
                  Hrun eq_refl eq_refl)).
Defined.

(** ** The previous frame is a fixed point *)

(** The loop depends on the two borrowed entries only through the styles
    they give to the lines. *)
Lemma enrichLoop_ext eps pft pfb pft' pfb' len todo :
  forall i (st : list StyledLine),
    (forall j, (i <= j < i + todo)%nat ->
       lineStyles eps pft pfb st len j = lineStyles eps pft' pfb' st len j) ->
    enrichLoop eps pft pfb len todo i st = enrichLoop eps pft' pfb' len todo i st.
Proof.
  induction todo as [|todo IH]; intros i st H; [reflexivity|].
  simpl. unfold enrichStep. rewrite (H i) by lia.
  destruct (lineStyles eps pft' pfb' st len i) as [styles|]; [|reflexivity].
  simpl. apply IH. intros j Hj.
  rewrite (lineStyles_same_geometry _ pft pfb _ st)
    by apply geometry_alter_styleLine.
  rewrite (lineStyles_same_geometry _ pft' pfb' _ st)
    by apply geometry_alter_styleLine.
  apply H. lia.
Qed.

(** The scan of a frame for the number of its first line stops there. *)
Lemma scanFrame_head (l : StyledLine) rest r :
  LineVisibleRangesWithStyle.ranges l !! 0%nat = Some r ->
  scanFrame (l :: rest) (LineVisibleRangesWithStyle.lineNumber l) = Some r.
Proof. intros Hr. simpl. rewrite Z.eqb_refl, Hr. reflexivity. Qed.

(** Borrowing from a range the classifier has styled gives back the
    corners it was given. *)
Lemma borrow_own_styles (corner : EdgeStyle -> CornerStyle) styles r :
  match dropUnstyled (Some (withStyles styles r)) with
  | Some cached =>
      s ← deref (HorizontalRangeWithStyle.startStyle cached);
      e ← deref (HorizontalRangeWithStyle.endStyle cached);
      mret (corner s, corner e)
  | None => mret (EXTERN, EXTERN)
  end = Normal (corner styles.1, corner styles.2).
Proof. reflexivity. Qed.

Lemma lineStyles_Normal eps pft pfb (lines : list StyledLine) len i styles :
  lineStyles eps pft pfb lines len i = Normal styles <->
  exists r tops bottoms,
    firstRange lines i = Normal r
    /\ topCorners eps pft lines i r = Normal tops
    /\ bottomCorners eps pfb lines len i r = Normal bottoms
    /\ styles = (IVisibleRangeEndPointStyle.mk tops.1 bottoms.1,
                 IVisibleRangeEndPointStyle.mk tops.2 bottoms.2).
Proof.
  unfold lineStyles. split.
  - intros H. apply bind_Normal in H as (r & Hr & H).
    apply bind_Normal in H as (tops & Ht & H).
    apply bind_Normal in H as (bottoms & Hb & H). injection H as <-.
    exists r, tops, bottoms. repeat split; assumption.
  - intros (r & tops & bottoms & Hr & Ht & Hb & ->).
    apply bind_Normal. exists r. split; [exact Hr|].
    apply bind_Normal. exists tops. split; [exact Ht|].
    apply bind_Normal. exists bottoms. split; [exact Hb | reflexivity].
Qed.

Lemma lineStyles_own_frame this viewport (lines : list StyledLine) previousFrame out j :
  _enrichVisibleRangesWithStyle this viewport lines previousFrame = Normal out ->
  (j < length lines)%nat ->
  lineStyles (epsilonOf this)
    (previousFrameEdges viewport lines (Some out)).1
    (previousFrameEdges viewport lines (Some out)).2 lines (length lines) j
  = lineStyles (epsilonOf this)
      (previousFrameEdges viewport lines previousFrame).1
      (previousFrameEdges viewport lines previousFrame).2 lines (length lines) j.
Proof.
  intros H Hj. destruct (enrich_Normal _ _ _ _ _ H) as (Hlen & _ & Hin). cbv zeta in Hin.
  destruct (lookup_lt_is_Some_2 lines j Hj) as (l & Hl).
  destruct (Hin j l Hl) as (styles & Hs & Ho). rewrite Hs.
  apply lineStyles_Normal in Hs as (r & tops & bottoms & Hfirst & Ht & Hb & ->).
  apply lineStyles_Normal. exists r, tops, bottoms.
  split; [exact Hfirst|].
  assert (Hr : LineVisibleRangesWithStyle.ranges l !! 0%nat = Some r).
  { apply firstRange_rangeAt in Hfirst. unfold rangeAt in Hfirst.
    rewrite Hl in Hfirst. exact Hfirst. }
  split; [|split; [|reflexivity]].
  - destruct j as [|j].
    + rewrite topCorners_first, (previousFrameEdges_top _ _ previousFrame _ Hl) in Ht.
      rewrite topCorners_first, (previousFrameEdges_top _ _ (Some out) _ Hl).
      destruct (_ =? _); [|exact Ht]. simpl default.
      destruct out as [|o rest]; [discriminate|]. injection Ho as ->.
      change (LineVisibleRangesWithStyle.lineNumber l)
        with (LineVisibleRangesWithStyle.lineNumber
                (styleLine (IVisibleRangeEndPointStyle.mk tops.1 bottoms.1,
                            IVisibleRangeEndPointStyle.mk tops.2 bottoms.2) l)).
      rewrite (scanFrame_head _ _ _ (rangeAt_styleLine _ _ _ Hr)).
      rewrite borrow_own_styles. destruct tops; reflexivity.
    + rewrite topCorners_no_cache by lia.
      rewrite topCorners_no_cache in Ht by lia. exact Ht.
  - destruct (Nat.ltb_spec (j + 1) (length lines)) as [Hlt|Hge].
    + rewrite bottomCorners_no_cache by exact Hlt.
      rewrite bottomCorners_no_cache in Hb by exact Hlt. exact Hb.
    + assert (j = length lines - 1)%nat as -> by lia.
      rewrite bottomCorners_last, (previousFrameEdges_bottom _ _ previousFrame _ Hl) in Hb.
      rewrite bottomCorners_last, (previousFrameEdges_bottom _ _ (Some out) _ Hl).
      destruct (_ =? _); [|exact Hb]. simpl default.
      assert (Hlast : last out
                      = Some (styleLine (IVisibleRangeEndPointStyle.mk tops.1 bottoms.1,
                                         IVisibleRangeEndPointStyle.mk tops.2 bottoms.2) l)).
      { rewrite last_lookup, <- Nat.sub_1_r, Hlen. exact Ho. }
      apply last_Some in Hlast as (front & ->). rewrite rev_unit.
      change (LineVisibleRangesWithStyle.lineNumber l)
        with (LineVisibleRangesWithStyle.lineNumber
                (styleLine (IVisibleRangeEndPointStyle.mk tops.1 bottoms.1,
                            IVisibleRangeEndPointStyle.mk tops.2 bottoms.2) l)).
      rewrite (scanFrame_head _ _ _ (rangeAt_styleLine _ _ _ Hr)).
      rewrite borrow_own_styles. destruct bottoms; reflexivity.
Qed.

(** X11. A frame is a fixed point of its own stabilization: classifying the
    same lines in the same viewport again, now with the array just
    returned as the previous frame, returns that array once more.  The
    same holds through the entry point. *)
Theorem previous_frame_fixed_point :
  (forall this viewport (lines : list StyledLine) previousFrame out,
     _enrichVisibleRangesWithStyle this viewport lines previousFrame = Normal out ->
     _enrichVisibleRangesWithStyle this viewport lines (Some out) = Normal out)
  /\ (forall (ViewportData : Type) this selection
             (ctx : RenderingContext ViewportData) previousFrame out,
        _getVisibleRangesWithStyle this selection ctx previousFrame = Normal out ->
        _getVisibleRangesWithStyle this selection ctx (Some out) = Normal out).
Proof.
  assert (Hfix : forall this viewport (lines : list StyledLine) previousFrame out,
     _enrichVisibleRangesWithStyle this viewport lines previousFrame = Normal out ->
     _enrichVisibleRangesWithStyle this viewport lines (Some out) = Normal out).
  { intros this viewport lines previousFrame out H. rewrite <- H.
    unfold _enrichVisibleRangesWithStyle. cbv zeta.
    apply enrichLoop_ext. intros j Hj.
    apply (lineStyles_own_frame _ _ _ _ _ _ H). lia. }
  split; [exact Hfix|].
  intros this selection ctx previousFrame out.
  unfold _getVisibleRangesWithStyle. cbv zeta.
  destruct (negb _ && _); [apply Hfix | trivial].
Qed.

Lemma previous_frame_fixed_point_witness :
  _enrichVisibleRangesWithStyle scenarioThis scrolledViewport scenarioLines None
  = Normal scenarioClassified
  /\ _enrichVisibleRangesWithStyle scenarioThis scrolledViewport scenarioLines
       (Some scenarioClassified) = Normal scenarioClassified.
Proof.
  assert (Hrun : _enrichVisibleRangesWithStyle scenarioThis scrolledViewport
                   scenarioLines None = Normal scenarioClassified)
    by (vm_compute; reflexivity).
  split; [exact Hrun|].
  exact (proj1 previous_frame_fixed_point scenarioThis scrolledViewport scenarioLines
           None scenarioClassified Hrun).
Defined.

(** ** The scan of the previous frame *)

Lemma lookup_0_None {A : Type} (l : list A) : l !! 0%nat = None -> l = [].
Proof. destruct l; [reflexivity | discriminate]. Qed.

Lemma scanFrame_None (visited : list StyledLine) n :
  scanFrame visited n = None <-> Forall (passedBy n) visited.
Proof.
  induction visited as [|x rest IH]; simpl.
  - split; [constructor | reflexivity].
  - destruct (Z.eqb_spec (LineVisibleRangesWithStyle.lineNumber x) n) as [Hn|Hn].
    + destruct (LineVisibleRangesWithStyle.ranges x !! 0%nat) as [r|] eqn:Hr.
      * split; [discriminate|]. intros H. inversion H as [|? ? Hx _]; subst.
        rewrite (Hx eq_refl) in Hr. discriminate.
      * rewrite IH. split.
        -- intros H. constructor; [|exact H]. intros _. apply lookup_0_None, Hr.
        -- intros H. inversion H; subst. assumption.
    + rewrite IH. split.
      * intros H. constructor; [|exact H]. intros Heq. contradiction.
      * intros H. inversion H; subst. assumption.
Qed.

(** X12. The scan returns [r] exactly when [r] is the first range of a line
    with the wanted number and every earlier line with that number holds
    no range; it returns nothing exactly when every line with that number
    holds no range. *)
Theorem scanFrame_iff (visited : list StyledLine) n :
  (forall r,
     scanFrame visited n = Some r
     <-> exists pre l post,
           visited = pre ++ l :: post
           /\ LineVisibleRangesWithStyle.lineNumber l = n
           /\ LineVisibleRangesWithStyle.ranges l !! 0%nat = Some r
           /\ Forall (passedBy n) pre)
  /\ (scanFrame visited n = None <-> Forall (passedBy n) visited).
Proof.
  split; [|apply scanFrame_None]. intros r. split.
  - induction visited as [|x rest IH]; simpl; [discriminate|].
    destruct (Z.eqb_spec (LineVisibleRangesWithStyle.lineNumber x) n) as [Hn|Hn].
    + destruct (LineVisibleRangesWithStyle.ranges x !! 0%nat) as [r0|] eqn:Hr.
      * intros H. injection H as <-. exists [], x, rest.
        repeat split; [exact Hn | exact Hr | constructor].
      * intros H. destruct (IH H) as (pre & l & post & -> & Hl & Hrl & Hpre).
        exists (x :: pre), l, post. repeat split; [exact Hl | exact Hrl|].
        constructor; [|exact Hpre]. intros _. apply lookup_0_None, Hr.
    + intros H. destruct (IH H) as (pre & l & post & -> & Hl & Hrl & Hpre).
      exists (x :: pre), l, post. repeat split; [exact Hl | exact Hrl|].
      constructor; [|exact Hpre]. intros Heq. contradiction.
  - intros (pre & l & post & -> & Hl & Hr & Hpre).
    induction Hpre as [|x pre Hx _ IH]; simpl.
    + subst n. rewrite Z.eqb_refl, Hr. reflexivity.
    + destruct (Z.eqb_spec (LineVisibleRangesWithStyle.lineNumber x) n) as [Hn|Hn];
        [|exact IH].
      rewrite (Hx Hn). simpl. exact IH.
Qed.

Lemma rev_reverse {A : Type} (l : list A) : rev l = reverse l.
Proof. rewrite rev_alt. reflexivity. Qed.

Lemma scanFrame_NoDup (frame : list StyledLine) n r :
  NoDup (LineVisibleRangesWithStyle.lineNumber <$> frame) ->
  scanFrame frame n = Some r
  <-> exists l, l ∈ frame /\ LineVisibleRangesWithStyle.lineNumber l = n
                /\ LineVisibleRangesWithStyle.ranges l !! 0%nat = Some r.
Proof.
  intros Hnd. split; [apply scanFrame_Some|].
  intros (l & Hin & Hl & Hr). induction frame as [|x rest IH]; [inversion Hin|].
  rewrite fmap_cons in Hnd. apply NoDup_cons in Hnd as [Hx Hnd]. simpl.
  destruct (Z.eqb_spec (LineVisibleRangesWithStyle.lineNumber x) n) as [Hn|Hn].
  - apply elem_of_cons in Hin as [->|Hin]; [rewrite Hr; reflexivity|].
    exfalso. apply Hx. apply list_elem_of_fmap. exists l. split; [congruence | exact Hin].
  - apply elem_of_cons in Hin as [->|Hin]; [contradiction|]. apply IH; assumption.
Qed.

(** X13. On a frame whose line numbers are pairwise distinct the scan from
    the end finds the same entry as the scan from the start. *)
Theorem scan_direction_irrelevant (frame : list StyledLine) n :
  NoDup (LineVisibleRangesWithStyle.lineNumber <$> frame) ->
  scanFrame (rev frame) n = scanFrame frame n.
Proof.
  intros Hnd.
  assert (Hnd' : NoDup (LineVisibleRangesWithStyle.lineNumber <$> rev frame)).
  { rewrite rev_reverse, fmap_reverse, reverse_Permutation. exact Hnd. }
  assert (Hiff : forall r, scanFrame (rev frame) n = Some r <-> scanFrame frame n = Some r).
  { intros r. rewrite (scanFrame_NoDup _ _ _ Hnd), (scanFrame_NoDup _ _ _ Hnd').
    split; intros (l & Hin & H); exists l; (split; [|exact H]).
    - rewrite rev_reverse, elem_of_reverse in Hin. exact Hin.
    - rewrite rev_reverse, elem_of_reverse. exact Hin. }
  destruct (scanFrame (rev frame) n) as [r|] eqn:Hrev.
  - symmetry. apply Hiff. reflexivity.
  - destruct (scanFrame frame n) as [r|] eqn:Hfwd; [|reflexivity].
    destruct (Hiff r) as [_ Hback]. specialize (Hback eq_refl). discriminate.
Qed.

Lemma scan_direction_irrelevant_witness :
  NoDup (LineVisibleRangesWithStyle.lineNumber <$> scenarioClassified)
  /\ scanFrame (rev scenarioClassified) 6 = scanFrame scenarioClassified 6.
Proof.
  assert (Hnd : NoDup (LineVisibleRangesWithStyle.lineNumber <$> scenarioClassified)).
  { apply (bool_decide_unpack _). vm_compute. exact I. }
  split; [exact Hnd|].
  exact (scan_direction_irrelevant scenarioClassified 6 Hnd).
Defined.

(** Without distinct line numbers the two scans can differ. *)
Example scan_direction_matters :
  scanFrame (rev repeatedFrame) 7 <> scanFrame repeatedFrame 7.
Proof. vm_compute. discriminate. Qed.

(** ** A character width that is not positive *)

(** X14. With a typical character width of zero or less, as the program
    compares it or, when it is finite, as a real number, epsilon is not
    positive and no corner between two adjacent lines is FLAT, however
    close the offsets are: no double passes the test [abs(t) < epsilon]. *)
Theorem no_flat_without_width this viewport (lines : list StyledLine) previousFrame
    out i upper lower :
  (_typicalHalfwidthCharacterWidth this <=? 0)%float = true
  \/ (isFinite (_typicalHalfwidthCharacterWidth this) = true
      /\ (exactValue (_typicalHalfwidthCharacterWidth this) <= 0)%Q) ->
  _enrichVisibleRangesWithStyle this viewport lines previousFrame = Normal out ->
  rangeAt lines i = Some upper ->
  rangeAt lines (S i) = Some lower ->
  startBottomAt out i <> Some FLAT /\ endBottomAt out i <> Some FLAT
  /\ startTopAt out (S i) <> Some FLAT /\ endTopAt out (S i) <> Some FLAT.
Proof.
  intros Hw H Hu Hl.
  destruct (boundary_corners _ _ _ _ _ _ _ _ H Hu Hl) as (-> & -> & -> & ->).
  assert (Hw' : (_typicalHalfwidthCharacterWidth this <=? 0)%float = true).
  { destruct Hw as [Hw | [Fw Hw]]; [exact Hw|].
    apply (leb_exact _ 0 Fw eq_refl). exact Hw. }
  assert (Hfar : forall t, (abs t <? epsilonOf this)%float = false).
  { intros t. unfold epsilonOf. apply abs_not_below_quarter. exact Hw'. }
  rewrite !Hfar.
  repeat split;
    repeat match goal with |- context [if ?b then _ else _] => destruct b end;
    discriminate.
Qed.

Lemma no_flat_without_width_witness :
  (_typicalHalfwidthCharacterWidth zeroWidthThis <=? 0)%float = true
  /\ _enrichVisibleRangesWithStyle zeroWidthThis scenarioViewport scenarioLines None
     = Normal zeroWidthClassified
  /\ startTopAt zeroWidthClassified 2 <> Some FLAT.
Proof.
  assert (Hw : (_typicalHalfwidthCharacterWidth zeroWidthThis <=? 0)%float = true)
    by reflexivity.
  assert (Hrun : _enrichVisibleRangesWithStyle zeroWidthThis scenarioViewport
                   scenarioLines None = Normal zeroWidthClassified)
    by (vm_compute; reflexivity).
  split; [exact Hw|]. split; [exact Hrun|].
  exact (proj1 (proj2 (proj2 (no_flat_without_width zeroWidthThis scenarioViewport
                                scenarioLines None zeroWidthClassified 1
                                (scenarioRange 0 80) (scenarioRange 0 30)
                                (or_introl Hw) Hrun eq_refl eq_refl)))).
Defined.

(** ** Render preparation *)

(** The loop of [prepareRender], started from any content of
    [_gpuShapes]. *)
Lemma register_loop {ViewLineOptions ViewportData : Type} (isEmpty : Range.t -> bool)
    (canRender : ViewLineOptions -> ViewportData -> Z -> bool) options
    (ctx : RenderingContext ViewportData) (selections : list Range.t) :
  forall shapes,
    foldl
      (fun (_gpuShapes : list RectangleRendererEntry.t) (selection : Range.t) =>
         if isEmpty selection then _gpuShapes
         else if canRender options (viewportData ctx)
                   (Range.startLineNumber selection) then
           _gpuShapes ++
             [RectangleRendererEntry.mk
                (inject_Z (Range.startColumn selection) * 10)%Q
                (inject_Z (Range.startLineNumber selection) * 10)%Q
                100 10 1 0 0 1]
         else _gpuShapes)
      shapes selections
    = shapes ++ List.map selectionRectangle
                  (List.filter (rendered isEmpty canRender options ctx) selections).
Proof.
  induction selections as [|sel rest IH]; intros shapes; simpl.
  - rewrite app_nil_r. reflexivity.
  - rewrite IH. unfold rendered at 2.
    destruct (isEmpty sel); simpl; [reflexivity|].
    destruct (canRender options (viewportData ctx) (Range.startLineNumber sel));
      simpl; [|reflexivity].
    rewrite <- app_assoc. reflexivity.
Qed.

(** X15. [prepareRender] registers one rectangle for each selection that is
    not empty and whose start line can be rendered, in the order of the
    selections: at ten times the start column and ten times the start line
    number, 100 wide and 10 high, with the colour (1, 0, 0, 1).  Empty
    selections and selections that cannot be rendered leave no trace. *)
Theorem prepareRender_registers {ViewLineOptions ViewportData : Type} isEmpty
    (canRender : ViewLineOptions -> ViewportData -> Z -> bool) options this ctx :
  prepareRender isEmpty canRender options this ctx
  = List.map selectionRectangle
      (List.filter (rendered isEmpty canRender options ctx) (_selections this)).
Proof. unfold prepareRender. apply (register_loop isEmpty canRender options ctx _ []). Qed.

Lemma dropUnstyled_noStyle found :
  (forall r, found = Some r -> noStyle r) -> dropUnstyled found = None.
Proof.
  intros H. destruct found as [r|]; [|reflexivity]. unfold dropUnstyled.
  destruct (H r eq_refl) as [-> _]. reflexivity.
Qed.

Lemma scanFrame_noStyle (frame : list StyledLine) n r :
  everyRange noStyle frame -> scanFrame frame n = Some r -> noStyle r.
Proof.
  intros Hn H. apply scanFrame_Some in H as (l & Hin & _ & Hr).
  unfold everyRange in Hn. rewrite Forall_forall in Hn.
  specialize (Hn l Hin). rewrite Forall_lookup in Hn. exact (Hn _ _ Hr).
Qed.

Lemma everyRange_rev P (frame : list StyledLine) :
  everyRange P frame -> everyRange P (rev frame).
Proof.
  unfold everyRange. rewrite !Forall_forall. intros H l Hl. apply H.
  rewrite rev_reverse, elem_of_reverse in Hl. exact Hl.
Qed.

(** X17. A previous frame in which no range has a style, as the entry
    point returns for a selection with a gap or with rounded selections
    off, lends nothing: the classifier works as it does without a previous
    frame. *)
Theorem unstyled_frame_lends_nothing this viewport (lines : list StyledLine) frame :
  everyRange noStyle frame ->
  _enrichVisibleRangesWithStyle this viewport lines (Some frame)
  = _enrichVisibleRangesWithStyle this viewport lines None.
Proof.
  intros Hn. unfold _enrichVisibleRangesWithStyle. cbv zeta.
  assert (Hedges : previousFrameEdges viewport lines (Some frame) = (None, None)).
  { unfold previousFrameEdges. destruct (_ && _); [|reflexivity].
    destruct (lines !! 0%nat) as [first|]; [|reflexivity].
    destruct (lines !! _) as [last|]; [|reflexivity].
    rewrite !dropUnstyled_noStyle; [reflexivity | |].
    - intros r. destruct (_ =? _); [|discriminate].
      apply scanFrame_noStyle, everyRange_rev, Hn.
    - intros r. destruct (_ =? _); [|discriminate].
      apply scanFrame_noStyle, Hn. }
  rewrite Hedges. reflexivity.
Qed.

Lemma unstyled_frame_lends_nothing_witness :
  everyRange noStyle (toStyled <$> gapGeometry)
  /\ _enrichVisibleRangesWithStyle scenarioThis scrolledViewport scenarioLines
       (Some (toStyled <$> gapGeometry))
     = _enrichVisibleRangesWithStyle scenarioThis scrolledViewport scenarioLines None.
Proof.
  assert (Hn : everyRange noStyle (toStyled <$> gapGeometry))
    by (apply (bool_decide_unpack _); vm_compute; exact I).
  split; [exact Hn|].
  exact (unstyled_frame_lends_nothing scenarioThis scrolledViewport scenarioLines
           (toStyled <$> gapGeometry) Hn).
Defined.

(** ** Locality *)

Lemma firstRange_same_line (a b : list StyledLine) i :
  a !! i = b !! i -> firstRange a i = firstRange b i.
Proof. unfold firstRange. intros ->. reflexivity. Qed.

(** X18. The styles of an interior line depend on that line and its two
    neighbours only: two classified selections of the same length that
    agree on lines [i - 1], [i] and [i + 1] give line [i] the same styles,
    whatever their other lines, viewports and previous frames are. *)
Theorem interior_styles_local this viewport viewport' (lines lines' : list StyledLine)
    previousFrame previousFrame' out out' i :
  _enrichVisibleRangesWithStyle this viewport lines previousFrame = Normal out ->
  _enrichVisibleRangesWithStyle this viewport' lines' previousFrame' = Normal out' ->
  length lines = length lines' ->
  (0 < i)%nat -> (i + 1 < length lines)%nat ->
  lines !! (i - 1)%nat = lines' !! (i - 1)%nat ->
  lines !! i = lines' !! i ->
  lines !! (i + 1)%nat = lines' !! (i + 1)%nat ->
  out !! i = out' !! i.
Proof.
  intros H H' Hlen Hpos Hlt Hprev Hcur Hnext.
  destruct (enrich_Normal _ _ _ _ _ H) as (_ & _ & Hin).
  destruct (enrich_Normal _ _ _ _ _ H') as (_ & _ & Hin'). cbv zeta in Hin, Hin'.
  destruct (lookup_lt_is_Some_2 lines i) as (l & Hl); [lia|].
  destruct (Hin i l Hl) as (styles & Hs & ->).
  rewrite Hcur in Hl. destruct (Hin' i l Hl) as (styles' & Hs' & ->).
  apply lineStyles_no_cache in Hs as [_ Hs]. specialize (Hs Hpos Hlt).
  apply lineStyles_no_cache in Hs' as [_ Hs']. rewrite <- Hlen in Hs'.
  specialize (Hs' Hpos Hlt).
  assert (Heq : lineStyles (epsilonOf this) None None lines (length lines) i
                = lineStyles (epsilonOf this) None None lines' (length lines) i).
  { unfold lineStyles, topCorners, bottomCorners.
    rewrite (firstRange_same_line _ _ _ Hprev), (firstRange_same_line _ _ _ Hcur),
      (firstRange_same_line _ _ _ Hnext). reflexivity. }
  rewrite Heq, Hs' in Hs. injection Hs as <-. reflexivity.
Qed.

Lemma interior_styles_local_witness :
  _enrichVisibleRangesWithStyle scenarioThis scenarioViewport fourLinesNarrow None
  = Normal fourLinesNarrowClassified
  /\ _enrichVisibleRangesWithStyle scenarioThis scrolledViewport fourLinesWide
       (Some scenarioClassified) = Normal fourLinesWideClassified
  /\ fourLinesNarrow !! 3%nat <> fourLinesWide !! 3%nat
  /\ fourLinesNarrowClassified !! 1%nat = fourLinesWideClassified !! 1%nat.
Proof.
  assert (Hrun : _enrichVisibleRangesWithStyle scenarioThis scenarioViewport
                   fourLinesNarrow None = Normal fourLinesNarrowClassified)
    by (vm_compute; reflexivity).
  assert (Hrun' : _enrichVisibleRangesWithStyle scenarioThis scrolledViewport
                    fourLinesWide (Some scenarioClassified)
                  = Normal fourLinesWideClassified)
    by (vm_compute; reflexivity).
  split; [exact Hrun|]. split; [exact Hrun'|]. split; [discriminate|].
  apply (interior_styles_local scenarioThis scenarioViewport scrolledViewport
           fourLinesNarrow fourLinesWide None (Some scenarioClassified)
           fourLinesNarrowClassified fourLinesWideClassified 1 Hrun Hrun');
    solve [reflexivity | simpl; lia].
Defined.

(** ** An offset that is not a number *)

Lemma is_nan_Prim2SF (x : float) : is_nan x = true -> Prim2SF x = S754_nan.
Proof.
  unfold is_nan. rewrite negb_true_iff, FloatAxioms.eqb_spec. unfold SFeqb.
  destruct (Prim2SF x) as [s|s| |s m e]; try reflexivity.
  - simpl. discriminate.
  - destruct s; simpl; discriminate.
  - rewrite SFcompare_refl_finite. discriminate.
Qed.

(** A comparison with NaN on either side is false. *)
Lemma ltb_nan (a b : float) :
  Prim2SF a = S754_nan \/ Prim2SF b = S754_nan -> (a <? b)%float = false.
Proof.
  rewrite ltb_spec. unfold SFltb. intros [-> | ->]; [reflexivity|].
  destruct (Prim2SF a); reflexivity.
Qed.

(** NaN goes through [+], [-] and [abs]. *)
Lemma add_nan (a b : float) :
  Prim2SF a = S754_nan \/ Prim2SF b = S754_nan -> Prim2SF (a + b) = S754_nan.
Proof.
  rewrite add_spec. intros [-> | ->]; [reflexivity|].
  destruct (Prim2SF a); reflexivity.
Qed.

Lemma abs_sub_nan (a b e : float) :
  Prim2SF a = S754_nan \/ Prim2SF b = S754_nan -> (abs (a - b) <? e)%float = false.
Proof.
  intros H. apply ltb_nan. left. rewrite abs_Prim2SF, sub_spec.
  destruct H as [-> | ->]; [reflexivity|].
  destruct (Prim2SF a); reflexivity.
Qed.

(** X19. A left offset that is NaN takes part in no rounding: when the
    left offset of one of two adjacent classified lines is NaN, every test
    at their common boundary is false and all four corners there are
    EXTERN. *)
Theorem nan_offset_is_extern this viewport (lines : list StyledLine) previousFrame
    out i upper lower :
  _enrichVisibleRangesWithStyle this viewport lines previousFrame = Normal out ->
  rangeAt lines i = Some upper ->
  rangeAt lines (S i) = Some lower ->
  is_nan (HorizontalRangeWithStyle.left upper) = true
  \/ is_nan (HorizontalRangeWithStyle.left lower) = true ->
  startBottomAt out i = Some EXTERN /\ endBottomAt out i = Some EXTERN
  /\ startTopAt out (S i) = Some EXTERN /\ endTopAt out (S i) = Some EXTERN.
Proof.
  intros H Hu Hl Hnan.
  destruct (boundary_corners _ _ _ _ _ _ _ _ H Hu Hl) as (-> & -> & -> & ->).
  assert (Hright : forall r, Prim2SF (HorizontalRangeWithStyle.left r) = S754_nan ->
                             Prim2SF (rightOf r) = S754_nan).
  { intros r Hr. apply add_nan. left. exact Hr. }
  destruct Hnan as [Hn|Hn]; apply is_nan_Prim2SF in Hn;
    pose proof (Hright _ Hn) as Hr;
    rewrite !abs_sub_nan by auto;
    repeat match goal with
      | |- context [(?a <? ?b)%float] => rewrite (ltb_nan a b) by auto
      end;
    rewrite ?andb_false_r; cbn [andb]; repeat split.
Qed.

Lemma nan_offset_is_extern_witness :
  _enrichVisibleRangesWithStyle scenarioThis scenarioViewport nanLines None
  = Normal nanClassified
  /\ is_nan (HorizontalRangeWithStyle.left (scenarioRange nan 50)) = true
  /\ startBottomAt nanClassified 0 = Some EXTERN
  /\ startTopAt nanClassified 1 = Some EXTERN.
Proof.
  assert (Hrun : _enrichVisibleRangesWithStyle scenarioThis scenarioViewport
                   nanLines None = Normal nanClassified)
    by (vm_compute; reflexivity).
  assert (Hnan : is_nan (HorizontalRangeWithStyle.left (scenarioRange nan 50)) = true)
    by reflexivity.
  split; [exact Hrun|]. split; [exact Hnan|].
  destruct (nan_offset_is_extern scenarioThis scenarioViewport nanLines None
              nanClassified 0 (scenarioRange nan 50) (scenarioRange 0 80)
              Hrun eq_refl eq_refl (or_introl Hnan)) as (Hsb & _ & Hst & _).
  split; [exact Hsb | exact Hst].
Defined.
